(** * chess_game: the round resolver and the in-memory session store

    Shallow embedding of [backend/server.py]: the board model
    ([Position], [Piece], [Bishop], [Rook], [Board]), the game records
    ([CoinToss], [DiceRoll], [GameRound], [GameState]), the session store
    [GameService] and the four game routes of the HTTP facade.

    Conventions.
    - A Python [int] is a [Z].
    - A Python [str] is a Rocq [string] holding the UTF-8 bytes of its code
      points (surrogates encoded like any other three-byte code point), so
      that [chr] returns a string on the whole range Python accepts.
    - A raised exception is the [Raise] case of [result].
    - [GameService.games] is a [gmap] from identifiers to
      [{"state": ..., "board": ...}] entries.  Every operation takes the
      dictionary and returns the dictionary it leaves behind, together with
      what it returned or raised.
    - [uuid.uuid4()], [datetime.utcnow()], [random.choice] and
      [random.randint] are inputs of the operations that call them. *)

From Stdlib Require Import ZArith Ascii String List Lia.
From stdpp Require Import base option list gmap strings.

Open Scope string_scope.
Open Scope Z_scope.

(** ** Exceptions *)

Inductive exn : Type :=
| ValueError
| OverflowError
| ZeroDivisionError
| HTTPException (status_code : Z) (detail : string).

Inductive result (A : Type) : Type :=
| Ok (a : A)
| Raise (e : exn).
Arguments Ok {A} a.
Arguments Raise {A} e.

#[global] Instance result_ret : MRet result := fun _ a => Ok a.
#[global] Instance result_bind : MBind result := fun _ _ f m =>
  match m with
  | Ok a => f a
  | Raise e => Raise e
  end.

(** ** Built-ins *)

Definition byte_of (z : Z) : ascii := ascii_of_N (Z.to_N z).

Definition cont (z : Z) : ascii := byte_of (Z.lor 0x80 (Z.land z 0x3F)).

(** UTF-8 bytes of one code point. *)
Definition utf8 (i : Z) : string :=
  if i <? 0x80 then String (byte_of i) ""
  else if i <? 0x800 then
    String (byte_of (Z.lor 0xC0 (Z.shiftr i 6))) (String (cont i) "")
  else if i <? 0x10000 then
    String (byte_of (Z.lor 0xE0 (Z.shiftr i 12)))
      (String (cont (Z.shiftr i 6)) (String (cont i) ""))
  else
    String (byte_of (Z.lor 0xF0 (Z.shiftr i 18)))
      (String (cont (Z.shiftr i 12))
         (String (cont (Z.shiftr i 6)) (String (cont i) ""))).

(** [chr(i)].  CPython converts the argument to a C [int] first and raises
    [OverflowError] when it does not fit (32 bits, two's complement); an
    argument that fits and is outside [range(0x110000)] raises
    [ValueError]. *)
Definition chr (i : Z) : result string :=
  if (i <? -0x80000000) || (0x7FFFFFFF <? i) then Raise OverflowError
  else if (0 <=? i) && (i <? 0x110000) then Ok (utf8 i)
  else Raise ValueError.

(** [ord(c)] of a one-character ASCII literal. *)
Definition ord (c : ascii) : Z := Z.of_N (N_of_ascii c).

(** [a % b] on integers: the result has the sign of [b], as [Z.modulo];
    [ZeroDivisionError] when [b] is 0. *)
Definition py_mod (a b : Z) : result Z :=
  if b =? 0 then Raise ZeroDivisionError else Ok (a mod b).

(** ** Chess game classes *)

Inductive PieceType : Type := BISHOP | ROOK.
Inductive PieceColor : Type := WHITE | BLACK.

Module Position.
Record t : Type := mk {
  file : string;
  rank : Z;
  x : Z;
  y : Z
}.
End Position.

Module Piece.
Record t : Type := mk {
  piece_type : PieceType;
  color : PieceColor;
  x : Z;
  y : Z
}.

Definition new (piece_type : PieceType) (color : PieceColor)
    (position : Z * Z) : t :=
  {| piece_type := piece_type; color := color;
     x := fst position; y := snd position |}.

Definition get_position (self : t) : result Position.t :=
  file ← chr (ord "a" + x self);
  let rank := y self + 1 in
  Ok {| Position.file := file; Position.rank := rank;
        Position.x := x self; Position.y := y self |}.

Definition set_position (self : t) (x y : Z) : t :=
  {| piece_type := piece_type self; color := color self; x := x; y := y |}.
End Piece.

Module Bishop.
Definition new (position : Z * Z) : Piece.t :=
  Piece.new BISHOP WHITE position.

Definition can_capture (self : Piece.t) (target_x target_y : Z) : bool :=
  let dx := Z.abs (target_x - Piece.x self) in
  let dy := Z.abs (target_y - Piece.y self) in
  (dx =? dy) && (dx >? 0).
End Bishop.

Module Rook.
Definition new (position : Z * Z) : Piece.t :=
  Piece.new ROOK BLACK position.

Definition can_capture (self : Piece.t) (target_x target_y : Z) : bool :=
  ((Piece.x self =? target_x) && negb (Piece.y self =? target_y))
  || ((Piece.y self =? target_y) && negb (Piece.x self =? target_x)).
End Rook.

(** Method dispatch on the class of the receiver. *)
Definition can_capture (self : Piece.t) (target_x target_y : Z) : bool :=
  match Piece.piece_type self with
  | BISHOP => Bishop.can_capture self target_x target_y
  | ROOK => Rook.can_capture self target_x target_y
  end.

Module Board.
Record t : Type := mk {
  size : Z;
  bishop : Piece.t;
  rook : Piece.t
}.

(** [Board()] *)
Definition new : t :=
  {| size := 8; bishop := Bishop.new (2, 2); rook := Rook.new (7, 0) |}.

Definition wrap_coordinates (self : t) (x y : Z) : result (Z * Z) :=
  x' ← py_mod x (size self);
  y' ← py_mod y (size self);
  Ok (x', y').

(** Returns the board after the in-place update of the rook, and the
    returned pair. *)
Definition move_rook (self : t) (direction : string) (squares : Z)
    : result (t * (Z * Z)) :=
  let '(new_x, new_y) :=
    if String.eqb direction "up"
    then (Piece.x (rook self), Piece.y (rook self) + squares)
    else (Piece.x (rook self) + squares, Piece.y (rook self)) in
  '(new_x, new_y) ← wrap_coordinates self new_x new_y;
  Ok ({| size := size self; bishop := bishop self;
         rook := Piece.set_position (rook self) new_x new_y |},
      (new_x, new_y)).

Definition check_capture (self : t) : bool :=
  can_capture (bishop self) (Piece.x (rook self)) (Piece.y (rook self)).

(** The dictionary [get_board_state] returns; each position is the
    [.dict()] of a [Position], that is its four fields. *)
Record board_state : Type := mk_board_state {
  bishop_position : Position.t;
  rook_position : Position.t;
  captured : bool
}.

Definition get_board_state (self : t) : result board_state :=
  bishop_position ← Piece.get_position (bishop self);
  rook_position ← Piece.get_position (rook self);
  Ok {| bishop_position := bishop_position;
        rook_position := rook_position;
        captured := check_capture self |}.
End Board.

(** ** Game models *)

Module CoinToss.
Record t : Type := mk {
  result : string;    (* "heads" or "tails" *)
  direction : string  (* "up" or "right" *)
}.
End CoinToss.

Module DiceRoll.
Record t : Type := mk {
  die1 : Z;
  die2 : Z;
  total : Z
}.
End DiceRoll.

Module GameRound.
Record t : Type := mk {
  round_number : Z;
  coin_toss : CoinToss.t;
  dice_roll : DiceRoll.t;
  rook_position_before : Position.t;
  rook_position_after : Position.t;
  captured : bool
}.
End GameRound.

Module GameState.
Record t : Type := mk {
  game_id : string;
  rounds : list GameRound.t;
  current_round : Z;
  game_over : bool;
  winner : option string;
  bishop_position : Position.t;
  rook_position : Position.t;
  created_at : Z
}.

(** [GameState(game_id=..., bishop_position=..., rook_position=...)]:
    the other fields take their defaults, [created_at] the clock
    reading. *)
Definition new (game_id : string) (utcnow : Z)
    (bishop_position rook_position : Position.t) : t :=
  {| game_id := game_id; rounds := []; current_round := 0;
     game_over := false; winner := None;
     bishop_position := bishop_position; rook_position := rook_position;
     created_at := utcnow |}.

(** Attribute assignments. *)
Definition set_rounds (self : t) (v : list GameRound.t) : t :=
  mk (game_id self) v (current_round self) (game_over self) (winner self)
     (bishop_position self) (rook_position self) (created_at self).

Definition set_current_round (self : t) (v : Z) : t :=
  mk (game_id self) (rounds self) v (game_over self) (winner self)
     (bishop_position self) (rook_position self) (created_at self).

Definition set_game_over (self : t) (v : bool) : t :=
  mk (game_id self) (rounds self) (current_round self) v (winner self)
     (bishop_position self) (rook_position self) (created_at self).

Definition set_winner (self : t) (v : option string) : t :=
  mk (game_id self) (rounds self) (current_round self) (game_over self) v
     (bishop_position self) (rook_position self) (created_at self).

Definition set_rook_position (self : t) (v : Position.t) : t :=
  mk (game_id self) (rounds self) (current_round self) (game_over self)
     (winner self) (bishop_position self) v (created_at self).
End GameState.

(** One entry of [GameService.games]: the dictionary
    [{"state": game_state, "board": board}]. *)
Module GameData.
Record t : Type := mk {
  state : GameState.t;
  board : Board.t
}.
End GameData.

Abbreviation Games := (gmap string GameData.t).

(** ** Randomness *)

Inductive Coin : Type := heads | tails.

Definition coin_name (c : Coin) : string :=
  match c with heads => "heads" | tails => "tails" end.

(** The three draws of one round: [random.choice(["heads", "tails"])] and
    two calls of [random.randint(1, 6)]. *)
Record Draw : Type := mkDraw {
  choice : Coin;
  randint1 : Z;
  randint2 : Z
}.

(** What [random.randint(1, 6)] guarantees of its results. *)
Definition draw_ok (d : Draw) : Prop :=
  1 <= randint1 d <= 6 /\ 1 <= randint2 d <= 6.

(** ** The session store *)

Module GameService.
(** [GameService()] *)
Definition new : Games := ∅.

Definition create_game (games : Games) (uuid4 : string) (utcnow : Z)
    : Games * result GameState.t :=
  let board := Board.new in
  match
    bishop_position ← Piece.get_position (Board.bishop board);
    rook_position ← Piece.get_position (Board.rook board);
    Ok (GameState.new uuid4 utcnow bishop_position rook_position)
  with
  | Raise e => (games, Raise e)
  | Ok game_state =>
      (<[GameState.game_id game_state :=
           {| GameData.state := game_state; GameData.board := board |}]> games,
       Ok game_state)
  end.

Definition get_game (games : Games) (game_id : string)
    : Games * result (option GameState.t) :=
  match games !! game_id with
  | Some game_data => (games, Ok (Some (GameData.state game_data)))
  | None => (games, Ok None)
  end.

(** [game_state] and [board] are the objects held by the dictionary
    entry, so what the body has assigned so far is what the dictionary
    holds when the call returns or raises. *)
Definition play_round (games : Games) (game_id : string) (rnd : Draw)
    : Games * result (option GameState.t) :=
  match games !! game_id with
  | None => (games, Ok None)
  | Some game_data =>
    let game_state := GameData.state game_data in
    let board := GameData.board game_data in
    if GameState.game_over game_state then (games, Ok (Some game_state))
    else
      let held game_state board :=
        <[game_id :=
            {| GameData.state := game_state; GameData.board := board |}]> games in
      (* Increment round *)
      let game_state :=
        GameState.set_current_round game_state
          (GameState.current_round game_state + 1) in
      (* Record position before move *)
      match Piece.get_position (Board.rook board) with
      | Raise e => (held game_state board, Raise e)
      | Ok position_before =>
        (* Coin toss *)
        let coin_result := coin_name (choice rnd) in
        let direction :=
          if String.eqb coin_result "heads" then "up" else "right" in
        let coin_toss :=
          {| CoinToss.result := coin_result;
             CoinToss.direction := direction |} in
        (* Dice roll *)
        let die1 := randint1 rnd in
        let die2 := randint2 rnd in
        let total := die1 + die2 in
        let dice_roll :=
          {| DiceRoll.die1 := die1; DiceRoll.die2 := die2;
             DiceRoll.total := total |} in
        (* Move rook *)
        match Board.move_rook board direction total with
        | Raise e => (held game_state board, Raise e)
        | Ok (board, _) =>
          match Piece.get_position (Board.rook board) with
          | Raise e => (held game_state board, Raise e)
          | Ok position_after =>
            (* Check capture *)
            let captured := Board.check_capture board in
            (* Create round record *)
            let game_round :=
              {| GameRound.round_number := GameState.current_round game_state;
                 GameRound.coin_toss := coin_toss;
                 GameRound.dice_roll := dice_roll;
                 GameRound.rook_position_before := position_before;
                 GameRound.rook_position_after := position_after;
                 GameRound.captured := captured |} in
            let game_state :=
              GameState.set_rounds game_state
                (GameState.rounds game_state ++ [game_round]) in
            let game_state :=
              GameState.set_rook_position game_state position_after in
            (* Check game over conditions *)
            let game_state :=
              if captured then
                GameState.set_winner (GameState.set_game_over game_state true)
                  (Some "Bishop (White)")
              else if GameState.current_round game_state >=? 15 then
                GameState.set_winner (GameState.set_game_over game_state true)
                  (Some "Rook (Black)")
              else game_state in
            (held game_state board, Ok (Some game_state))
          end
        end
      end
  end.
End GameService.

(** ** API routes *)

Module Api.
Definition not_found : exn := HTTPException 404 "Game not found".

(** [POST /game] *)
Definition create_game (games : Games) (uuid4 : string) (utcnow : Z)
    : Games * result GameState.t :=
  GameService.create_game games uuid4 utcnow.

(** [GET /game/{game_id}] *)
Definition get_game (games : Games) (game_id : string)
    : Games * result GameState.t :=
  match GameService.get_game games game_id with
  | (games, Raise e) => (games, Raise e)
  | (games, Ok None) => (games, Raise not_found)
  | (games, Ok (Some game_state)) => (games, Ok game_state)
  end.

(** [POST /game/{game_id}/round] *)
Definition play_round (games : Games) (game_id : string) (rnd : Draw)
    : Games * result GameState.t :=
  match GameService.play_round games game_id rnd with
  | (games, Raise e) => (games, Raise e)
  | (games, Ok None) => (games, Raise not_found)
  | (games, Ok (Some game_state)) => (games, Ok game_state)
  end.

(** [POST /game/{game_id}/reset] *)
Definition reset_game (games : Games) (game_id : string) (utcnow : Z)
    : Games * result GameState.t :=
  match games !! game_id with
  | None => (games, Raise not_found)
  | Some _ =>
    (* Create new board and reset game state *)
    let board := Board.new in
    match
      bishop_position ← Piece.get_position (Board.bishop board);
      rook_position ← Piece.get_position (Board.rook board);
      Ok (GameState.new game_id utcnow bishop_position rook_position)
    with
    | Raise e => (games, Raise e)
    | Ok game_state =>
        (<[game_id :=
             {| GameData.state := game_state; GameData.board := board |}]> games,
         Ok game_state)
    end
  end.
End Api.

(** ** Sequences of calls *)

(** The dictionary after one [POST /game/{game_id}/round] per draw. *)
Fixpoint play_rounds (games : Games) (game_id : string) (draws : list Draw)
    : Games :=
  match draws with
  | [] => games
  | rnd :: draws => play_rounds (Api.play_round games game_id rnd).1 game_id draws
  end.

(** The requests a client can send to the game routes. *)
Inductive request : Type :=
| POST_game (uuid4 : string) (utcnow : Z)
| GET_game (game_id : string)
| POST_round (game_id : string) (rnd : Draw)
| POST_reset (game_id : string) (utcnow : Z).

Definition serve (games : Games) (r : request) : Games * result GameState.t :=
  match r with
  | POST_game uuid4 utcnow => Api.create_game games uuid4 utcnow
  | GET_game game_id => Api.get_game games game_id
  | POST_round game_id rnd => Api.play_round games game_id rnd
  | POST_reset game_id utcnow => Api.reset_game games game_id utcnow
  end.

(** The dictionaries the running service can hold: it starts empty and
    changes only by serving requests. *)
Inductive reachable : Games -> Prop :=
| reachable_new : reachable GameService.new
| reachable_serve games r :
    reachable games -> reachable (serve games r).1.

(** ** Well-formed boards and the effect of one round *)

(** The position record of the square [(x, y)], for [x] in 0..7. *)
Definition position_of (x y : Z) : Position.t :=
  {| Position.file := String (byte_of (ord "a" + x)) "";
     Position.rank := y + 1;
     Position.x := x; Position.y := y |}.

Definition on_board (x y : Z) : Prop := 0 <= x <= 7 /\ 0 <= y <= 7.

(** What [Board()] establishes and [move_rook] keeps. *)
Definition board_ok (b : Board.t) : Prop :=
  Board.size b = 8 /\
  Board.bishop b = Bishop.new (2, 2) /\
  on_board (Piece.x (Board.rook b)) (Piece.y (Board.rook b)).

(** The square the rook of a well-formed board moves to. *)
Definition landing (b : Board.t) (rnd : Draw) : Z * Z :=
  let total := randint1 rnd + randint2 rnd in
  match choice rnd with
  | heads => (Piece.x (Board.rook b), (Piece.y (Board.rook b) + total) mod 8)
  | tails => ((Piece.x (Board.rook b) + total) mod 8, Piece.y (Board.rook b))
  end.

Definition moved (b : Board.t) (rnd : Draw) : Board.t :=
  {| Board.size := Board.size b; Board.bishop := Board.bishop b;
     Board.rook :=
       Piece.set_position (Board.rook b) (landing b rnd).1 (landing b rnd).2 |}.

(** The record [play_round] appends for a live session on a well-formed
    board. *)
Definition round_record (game_data : GameData.t) (rnd : Draw) : GameRound.t :=
  let b := GameData.board game_data in
  {| GameRound.round_number :=
       GameState.current_round (GameData.state game_data) + 1;
     GameRound.coin_toss :=
       {| CoinToss.result := coin_name (choice rnd);
          CoinToss.direction :=
            match choice rnd with heads => "up" | tails => "right" end |};
     GameRound.dice_roll :=
       {| DiceRoll.die1 := randint1 rnd; DiceRoll.die2 := randint2 rnd;
          DiceRoll.total := randint1 rnd + randint2 rnd |};
     GameRound.rook_position_before :=
       position_of (Piece.x (Board.rook b)) (Piece.y (Board.rook b));
     GameRound.rook_position_after :=
       position_of (landing b rnd).1 (landing b rnd).2;
     GameRound.captured := Board.check_capture (moved b rnd) |}.

(** The entry [play_round] leaves for a live session on a well-formed
    board. *)
Definition advance (game_data : GameData.t) (rnd : Draw) : GameData.t :=
  let s := GameData.state game_data in
  let r := round_record game_data rnd in
  let n := GameState.current_round s + 1 in
  {| GameData.state :=
       {| GameState.game_id := GameState.game_id s;
          GameState.rounds := GameState.rounds s ++ [r];
          GameState.current_round := n;
          GameState.game_over :=
            GameRound.captured r || (n >=? 15) || GameState.game_over s;
          GameState.winner :=
            if GameRound.captured r then Some "Bishop (White)"
            else if n >=? 15 then Some "Rook (Black)"
            else GameState.winner s;
          GameState.bishop_position := GameState.bishop_position s;
          GameState.rook_position := GameRound.rook_position_after r;
          GameState.created_at := GameState.created_at s |};
     GameData.board := moved (GameData.board game_data) rnd |}.

(** The entry of a session just created or reset. *)
Definition fresh (game_id : string) (utcnow : Z) : GameData.t :=
  {| GameData.state :=
       GameState.new game_id utcnow (position_of 2 2) (position_of 7 0);
     GameData.board := Board.new |}.

(** The session after one call of [play_round] per draw, on a well-formed
    board. *)
Fixpoint advance_all (game_data : GameData.t) (draws : list Draw) : GameData.t :=
  match draws with
  | [] => game_data
  | rnd :: draws =>
      advance_all
        (if GameState.game_over (GameData.state game_data) then game_data
         else advance game_data rnd)
        draws
  end.

(** ** Invariants of a session *)

Definition not_captured (r : GameRound.t) : Prop := GameRound.captured r = false.

(** What holds of the round recorded at (0-based) index [i]. *)
Definition round_ok (i : nat) (r : GameRound.t) : Prop :=
  let total := DiceRoll.total (GameRound.dice_roll r) in
  let after := GameRound.rook_position_after r in
  GameRound.round_number r = Z.of_nat i + 1 /\
  total = DiceRoll.die1 (GameRound.dice_roll r)
          + DiceRoll.die2 (GameRound.dice_roll r) /\
  (exists x y,
      on_board x y /\
      GameRound.rook_position_before r = position_of x y /\
      ((CoinToss.direction (GameRound.coin_toss r) = "up" /\
        after = position_of x ((y + total) mod 8)) \/
       (CoinToss.direction (GameRound.coin_toss r) = "right" /\
        after = position_of ((x + total) mod 8) y))) /\
  GameRound.captured r
  = Bishop.can_capture (Bishop.new (2, 2)) (Position.x after) (Position.y after).

Definition session_ok (game_data : GameData.t) : Prop :=
  let s := GameData.state game_data in
  board_ok (GameData.board game_data) /\
  GameState.current_round s = Z.of_nat (length (GameState.rounds s)) /\
  (forall i r, GameState.rounds s !! i = Some r -> round_ok i r) /\
  GameState.current_round s <= 15 /\
  (GameState.game_over s = false ->
     GameState.winner s = None /\ GameState.current_round s < 15 /\
     Forall not_captured (GameState.rounds s)) /\
  (GameState.game_over s = true ->
     exists (earlier : list GameRound.t) (last : GameRound.t),
       GameState.rounds s = (earlier ++ [last])%list /\
       Forall not_captured earlier /\
       ((GameRound.captured last = true /\
         GameState.winner s = Some "Bishop (White)") \/
        (GameRound.captured last = false /\
         GameState.winner s = Some "Rook (Black)" /\
         GameState.current_round s = 15))).

(** What holds of the entry stored under [key]. *)
Definition entry_ok (key : string) (game_data : GameData.t) : Prop :=
  GameState.game_id (GameData.state game_data) = key /\ session_ok game_data.

Definition dice_ok (r : GameRound.t) : Prop :=
  1 <= DiceRoll.die1 (GameRound.dice_roll r) <= 6 /\
  1 <= DiceRoll.die2 (GameRound.dice_roll r) <= 6.

(** The session is stored and not over. *)
Definition live (games : Games) (game_id : string) : bool :=
  match games !! game_id with
  | Some game_data => negb (GameState.game_over (GameData.state game_data))
  | None => false
  end.

(** The session is live before each of the calls of [play_rounds]. *)
Fixpoint live_before_each (games : Games) (game_id : string)
    (draws : list Draw) : bool :=
  match draws with
  | [] => true
  | rnd :: draws =>
      live games game_id
      && live_before_each (Api.play_round games game_id rnd).1 game_id draws
  end.

(** ** Further invariants of the running service *)

(** The identifier a request is about. *)
Definition request_id (r : request) : string :=
  match r with
  | POST_game uuid4 _ => uuid4
  | GET_game game_id => game_id
  | POST_round game_id _ => game_id
  | POST_reset game_id _ => game_id
  end.

(** The stored state shows the board. *)
Definition sync_ok (game_data : GameData.t) : Prop :=
  let s := GameData.state game_data in
  let b := GameData.board game_data in
  GameState.bishop_position s = position_of 2 2 /\
  GameState.rook_position s
  = position_of (Piece.x (Board.rook b)) (Piece.y (Board.rook b)) /\
  (Board.check_capture b = true <->
   GameState.winner s = Some "Bishop (White)").

(** The rook's position when round [i] (0-based) starts: h1 for the first
    round, then where the previous round left it. *)
Definition position_entering (rounds : list GameRound.t) (i : nat)
    : Position.t :=
  match i with
  | O => position_of 7 0
  | S j =>
      from_option GameRound.rook_position_after (position_of 7 0)
        (rounds !! j)
  end.

(** Each round starts where the previous one ended, and the state shows
    where the last one ended. *)
Definition chain_ok (game_data : GameData.t) : Prop :=
  let s := GameData.state game_data in
  (forall i r, GameState.rounds s !! i = Some r ->
               GameRound.rook_position_before r
               = position_entering (GameState.rounds s) i) /\
  GameState.rook_position s
  = position_entering (GameState.rounds s) (length (GameState.rounds s)).

(** Heads moves the rook up its file, tails along its rank. *)
Definition toss_ok (r : GameRound.t) : Prop :=
  let before := GameRound.rook_position_before r in
  let after := GameRound.rook_position_after r in
  let total := DiceRoll.total (GameRound.dice_roll r) in
  (CoinToss.result (GameRound.coin_toss r) = "heads" /\
   CoinToss.direction (GameRound.coin_toss r) = "up" /\
   Position.x after = Position.x before /\
   Position.y after = (Position.y before + total) mod 8) \/
  (CoinToss.result (GameRound.coin_toss r) = "tails" /\
   CoinToss.direction (GameRound.coin_toss r) = "right" /\
   Position.x after = (Position.x before + total) mod 8 /\
   Position.y after = Position.y before).

(** A position record of a square of the board, in both notations. *)
Definition position_ok (p : Position.t) : Prop :=
  on_board (Position.x p) (Position.y p) /\
  Position.file p = String (byte_of (ord "a" + Position.x p)) "" /\
  In (Position.file p) ["a"; "b"; "c"; "d"; "e"; "f"; "g"; "h"] /\
  Position.rank p = Position.y p + 1 /\
  1 <= Position.rank p <= 8.

Definition full_ok (key : string) (game_data : GameData.t) : Prop :=
  entry_ok key game_data /\ sync_ok game_data /\ chain_ok game_data /\
  Forall toss_ok (GameState.rounds (GameData.state game_data)).

(** * Properties *)

(** ** The model on concrete inputs *)

Example get_position_c3 :
  Piece.get_position (Bishop.new (2, 2))
  = Ok {| Position.file := "c"; Position.rank := 3;
          Position.x := 2; Position.y := 2 |}.
Proof. reflexivity. Qed.

Example get_position_off_range :
  Piece.get_position (Rook.new (-98, 0)) = Raise ValueError.
Proof. reflexivity. Qed.

Example move_rook_wraps :
  (b ← Board.move_rook Board.new "right" 12; Ok b.2) = Ok (3, 0).
Proof. reflexivity. Qed.

(** Heads and 3 + 4 from the initial position: the rook lands on h8, on
    the bishop's diagonal. *)
Example first_round_capture :
  match (Api.play_round (Api.create_game ∅ "g" 0).1 "g" (mkDraw heads 3 4)).2 with
  | Ok s =>
      GameState.game_over s = true /\
      GameState.winner s = Some "Bishop (White)" /\
      Position.file (GameState.rook_position s) = "h" /\
      Position.rank (GameState.rook_position s) = 8
  | Raise _ => False
  end.
Proof. vm_compute. auto. Qed.

(** ** Capture predicates *)

Lemma bishop_can_capture_iff (self : Piece.t) (target_x target_y : Z) :
  Bishop.can_capture self target_x target_y = true <->
  Z.abs (target_x - Piece.x self) = Z.abs (target_y - Piece.y self) /\
  Z.abs (target_x - Piece.x self) <> 0.
Proof.
  unfold Bishop.can_capture. cbv zeta.
  rewrite andb_true_iff, Z.eqb_eq, Z.gtb_gt. lia.
Qed.

Lemma rook_can_capture_iff (self : Piece.t) (target_x target_y : Z) :
  Rook.can_capture self target_x target_y = true <->
  (Piece.x self = target_x /\ Piece.y self <> target_y) \/
  (Piece.y self = target_y /\ Piece.x self <> target_x).
Proof.
  unfold Rook.can_capture.
  rewrite orb_true_iff, !andb_true_iff, !negb_true_iff, !Z.eqb_eq, !Z.eqb_neq.
  tauto.
Qed.

(** C2.  The bishop's predicate holds exactly when the two coordinate
    differences have the same, nonzero, absolute value; the rook's holds
    exactly when one of [x = target_x] and [y = target_y] is true and the
    other false; on the piece's own square both are false. *)
Theorem capture_predicates (self : Piece.t) (tx ty : Z) :
  let x := Piece.x self in
  let y := Piece.y self in
  (Bishop.can_capture self tx ty = true <->
     Z.abs (tx - x) = Z.abs (ty - y) /\ Z.abs (tx - x) <> 0) /\
  (Rook.can_capture self tx ty = true <->
     (x = tx /\ y <> ty) \/ (x <> tx /\ y = ty)) /\
  Bishop.can_capture self x y = false /\
  Rook.can_capture self x y = false.
Proof.
  cbv zeta. split; [|split; [|split]].
  - apply bishop_can_capture_iff.
  - rewrite rook_can_capture_iff. tauto.
  - apply not_true_is_false. rewrite bishop_can_capture_iff. lia.
  - apply not_true_is_false. rewrite rook_can_capture_iff. lia.
Qed.

(** ** Wrapping and the rook's move *)

Lemma wrap_coordinates_size8 (b : Board.t) (x y : Z) :
  Board.size b = 8 ->
  Board.wrap_coordinates b x y = Ok (x mod 8, y mod 8).
Proof. intros Hsize. unfold Board.wrap_coordinates, py_mod. by rewrite Hsize. Qed.

Lemma move_rook_up (b : Board.t) (squares : Z) :
  Board.size b = 8 ->
  Board.move_rook b "up" squares =
    let new_x := Piece.x (Board.rook b) mod 8 in
    let new_y := (Piece.y (Board.rook b) + squares) mod 8 in
    Ok ({| Board.size := Board.size b; Board.bishop := Board.bishop b;
           Board.rook := Piece.set_position (Board.rook b) new_x new_y |},
        (new_x, new_y)).
Proof.
  intros Hsize. unfold Board.move_rook.
  change (String.eqb "up" "up") with true. cbv iota beta.
  by rewrite wrap_coordinates_size8.
Qed.

Lemma move_rook_right (b : Board.t) (direction : string) (squares : Z) :
  Board.size b = 8 ->
  direction <> "up" ->
  Board.move_rook b direction squares =
    let new_x := (Piece.x (Board.rook b) + squares) mod 8 in
    let new_y := Piece.y (Board.rook b) mod 8 in
    Ok ({| Board.size := Board.size b; Board.bishop := Board.bishop b;
           Board.rook := Piece.set_position (Board.rook b) new_x new_y |},
        (new_x, new_y)).
Proof.
  intros Hsize Hdir. unfold Board.move_rook.
  apply String.eqb_neq in Hdir. rewrite Hdir. cbv iota beta.
  by rewrite wrap_coordinates_size8.
Qed.

(** C5.  On the 8x8 board, wrapping [(x + m, y)] and [(x, y + m)] for
    [x], [y] in 0..7 and [m >= 0] gives [((x + m) mod 8, y)] and
    [(x, (y + m) mod 8)], both inside 0..7; [move_rook] with "up" adds the
    magnitude to the rook's [y] and keeps its [x], with "right" adds it to
    [x] and keeps [y], wraps the result and stores it in the rook: the
    board it leaves has the rook at the returned square, through
    [set_position], with its type and colour, and size and bishop as they
    were. *)
Theorem wrap_and_move_rook (b : Board.t) (x y m : Z) :
  Board.size b = 8 ->
  0 <= x <= 7 -> 0 <= y <= 7 -> 0 <= m ->
  (Board.wrap_coordinates b (x + m) y = Ok ((x + m) mod 8, y) /\
   Board.wrap_coordinates b x (y + m) = Ok (x, (y + m) mod 8) /\
   0 <= (x + m) mod 8 <= 7 /\ 0 <= (y + m) mod 8 <= 7) /\
  (Piece.x (Board.rook b) = x -> Piece.y (Board.rook b) = y ->
   (exists up,
      Board.move_rook b "up" m = Ok (up, (x, (y + m) mod 8)) /\
      up = {| Board.size := Board.size b; Board.bishop := Board.bishop b;
              Board.rook :=
                Piece.set_position (Board.rook b) x ((y + m) mod 8) |} /\
      Piece.x (Board.rook up) = x /\
      Piece.y (Board.rook up) = (y + m) mod 8 /\
      Piece.piece_type (Board.rook up) = Piece.piece_type (Board.rook b) /\
      Piece.color (Board.rook up) = Piece.color (Board.rook b) /\
      Board.size up = Board.size b /\ Board.bishop up = Board.bishop b) /\
   (exists right,
      Board.move_rook b "right" m = Ok (right, ((x + m) mod 8, y)) /\
      right = {| Board.size := Board.size b; Board.bishop := Board.bishop b;
                 Board.rook :=
                   Piece.set_position (Board.rook b) ((x + m) mod 8) y |} /\
      Piece.x (Board.rook right) = (x + m) mod 8 /\
      Piece.y (Board.rook right) = y /\
      Piece.piece_type (Board.rook right) = Piece.piece_type (Board.rook b) /\
      Piece.color (Board.rook right) = Piece.color (Board.rook b) /\
      Board.size right = Board.size b /\ Board.bishop right = Board.bishop b)).
Proof.
  intros Hsize Hx Hy Hm.
  assert (Hxs : x mod 8 = x) by (apply Z.mod_small; lia).
  assert (Hys : y mod 8 = y) by (apply Z.mod_small; lia).
  split.
  - rewrite !wrap_coordinates_size8 by done. rewrite Hxs, Hys.
    pose proof (Z.mod_pos_bound (x + m) 8).
    pose proof (Z.mod_pos_bound (y + m) 8).
    repeat split; lia.
  - intros Hrx Hry. split.
    + eexists. split.
      * rewrite move_rook_up by done. cbv zeta. rewrite Hrx, Hry, Hxs.
        reflexivity.
      * repeat split.
    + eexists. split.
      * rewrite (move_rook_right b "right") by done. cbv zeta.
        rewrite Hrx, Hry, Hys. reflexivity.
      * repeat split.
Qed.

Lemma wrap_and_move_rook_witness :
  exists up,
    Board.move_rook Board.new "up" 11 = Ok (up, (7, 3)) /\
    Piece.x (Board.rook up) = 7 /\ Piece.y (Board.rook up) = 3 /\
    Piece.piece_type (Board.rook up) = ROOK /\
    Board.bishop up = Bishop.new (2, 2).
Proof.
  destruct (wrap_and_move_rook Board.new 7 0 11) as [_ Hmove];
    [reflexivity | lia | lia | lia |].
  destruct (Hmove eq_refl eq_refl)
    as [(up & Hcall & _ & Hrx & Hry & Hty & _ & _ & Hbishop) _].
  exists up. repeat split; assumption.
Defined.

(** ** One round on a well-formed board *)

Lemma get_position_on_board (p : Piece.t) :
  0 <= Piece.x p <= 7 ->
  Piece.get_position p = Ok (position_of (Piece.x p) (Piece.y p)).
Proof.
  intros Hx. unfold Piece.get_position, position_of.
  assert (Hc : chr (ord "a" + Piece.x p)
               = Ok (String (byte_of (ord "a" + Piece.x p)) "")).
  { assert (H : Piece.x p = 0 \/ Piece.x p = 1 \/ Piece.x p = 2 \/
                Piece.x p = 3 \/ Piece.x p = 4 \/ Piece.x p = 5 \/
                Piece.x p = 6 \/ Piece.x p = 7) by lia.
    destruct H as [-> | [-> | [-> | [-> | [-> | [-> | [-> | ->]]]]]]];
      reflexivity. }
  by rewrite Hc.
Qed.

Lemma landing_on_board (b : Board.t) (rnd : Draw) :
  board_ok b -> on_board (landing b rnd).1 (landing b rnd).2.
Proof.
  intros (_ & _ & Hx & Hy). unfold landing, on_board.
  pose proof (Z.mod_pos_bound
    (Piece.x (Board.rook b) + (randint1 rnd + randint2 rnd)) 8).
  pose proof (Z.mod_pos_bound
    (Piece.y (Board.rook b) + (randint1 rnd + randint2 rnd)) 8).
  destruct (choice rnd); cbn; lia.
Qed.

Lemma moved_ok (b : Board.t) (rnd : Draw) : board_ok b -> board_ok (moved b rnd).
Proof.
  intros Hb. pose proof (landing_on_board b rnd Hb) as Hl.
  destruct Hb as (Hsize & Hbishop & _). split; [|split]; [done | done | exact Hl].
Qed.

Lemma move_rook_moved (b : Board.t) (rnd : Draw) :
  board_ok b ->
  Board.move_rook b
    (if String.eqb (coin_name (choice rnd)) "heads" then "up" else "right")
    (randint1 rnd + randint2 rnd)
  = Ok (moved b rnd, landing b rnd).
Proof.
  intros (Hsize & _ & Hx & Hy). unfold moved, landing.
  destruct (choice rnd); cbn [coin_name].
  - change (String.eqb "heads" "heads") with true. cbv iota.
    rewrite move_rook_up by done. cbv zeta.
    by rewrite (Z.mod_small (Piece.x (Board.rook b)) 8) by lia.
  - change (String.eqb "tails" "heads") with false. cbv iota.
    rewrite (move_rook_right b "right") by done. cbv zeta.
    by rewrite (Z.mod_small (Piece.y (Board.rook b)) 8) by lia.
Qed.

Lemma play_round_absent (games : Games) (game_id : string) (rnd : Draw) :
  games !! game_id = None ->
  GameService.play_round games game_id rnd = (games, Ok None).
Proof. intros H. unfold GameService.play_round. by rewrite H. Qed.

Lemma play_round_over (games : Games) (game_id : string) (rnd : Draw)
    (game_data : GameData.t) :
  games !! game_id = Some game_data ->
  GameState.game_over (GameData.state game_data) = true ->
  GameService.play_round games game_id rnd
  = (games, Ok (Some (GameData.state game_data))).
Proof. intros H Hover. unfold GameService.play_round. by rewrite H, Hover. Qed.

Lemma play_round_live (games : Games) (game_id : string) (rnd : Draw)
    (game_data : GameData.t) :
  games !! game_id = Some game_data ->
  GameState.game_over (GameData.state game_data) = false ->
  board_ok (GameData.board game_data) ->
  GameService.play_round games game_id rnd
  = (<[game_id := advance game_data rnd]> games,
     Ok (Some (GameData.state (advance game_data rnd)))).
Proof.
  intros H Hlive Hb. unfold GameService.play_round. rewrite H, Hlive.
  pose proof (landing_on_board _ rnd Hb) as [Hlx Hly].
  rewrite get_position_on_board by apply Hb.
  rewrite move_rook_moved by done.
  rewrite get_position_on_board by (cbn; lia).
  unfold advance, round_record. cbv zeta.
  cbn [GameState.set_current_round GameState.set_rounds
       GameState.set_rook_position GameState.set_game_over
       GameState.set_winner GameState.current_round GameState.rounds
       GameState.game_over GameState.winner GameState.game_id
       GameState.bishop_position GameState.rook_position
       GameState.created_at GameRound.captured GameRound.rook_position_after
       GameData.state GameData.board].
  rewrite Hlive.
  assert (Hdir : (if String.eqb (coin_name (choice rnd)) "heads"
                  then "up" else "right")
                 = match choice rnd with heads => "up" | tails => "right" end)
    by (by destruct (choice rnd)).
  rewrite Hdir.
  destruct (Board.check_capture (moved (GameData.board game_data) rnd));
    [reflexivity|].
  destruct (GameState.current_round (GameData.state game_data) + 1 >=? 15);
    [reflexivity|].
  cbn [orb]. rewrite <- Hlive. by destruct game_data as [[] ?].
Qed.

(** ** The routes in closed form *)

Lemma create_game_fresh (games : Games) (uuid4 : string) (utcnow : Z) :
  GameService.create_game games uuid4 utcnow
  = (<[uuid4 := fresh uuid4 utcnow]> games,
     Ok (GameData.state (fresh uuid4 utcnow))).
Proof. reflexivity. Qed.

Lemma reset_game_fresh (games : Games) (game_id : string) (utcnow : Z) :
  is_Some (games !! game_id) ->
  Api.reset_game games game_id utcnow
  = (<[game_id := fresh game_id utcnow]> games,
     Ok (GameData.state (fresh game_id utcnow))).
Proof. intros [gd H]. unfold Api.reset_game. by rewrite H. Qed.

Lemma reset_game_absent (games : Games) (game_id : string) (utcnow : Z) :
  games !! game_id = None ->
  Api.reset_game games game_id utcnow = (games, Raise Api.not_found).
Proof. intros H. unfold Api.reset_game. by rewrite H. Qed.

Lemma api_play_round_absent (games : Games) (game_id : string) (rnd : Draw) :
  games !! game_id = None ->
  Api.play_round games game_id rnd = (games, Raise Api.not_found).
Proof.
  intros H. unfold Api.play_round. by rewrite play_round_absent.
Qed.

Lemma api_play_round_over (games : Games) (game_id : string) (rnd : Draw)
    (game_data : GameData.t) :
  games !! game_id = Some game_data ->
  GameState.game_over (GameData.state game_data) = true ->
  Api.play_round games game_id rnd = (games, Ok (GameData.state game_data)).
Proof.
  intros H Hover. unfold Api.play_round.
  by rewrite (play_round_over _ _ _ _ H Hover).
Qed.

Lemma api_play_round_live (games : Games) (game_id : string) (rnd : Draw)
    (game_data : GameData.t) :
  games !! game_id = Some game_data ->
  GameState.game_over (GameData.state game_data) = false ->
  board_ok (GameData.board game_data) ->
  Api.play_round games game_id rnd
  = (<[game_id := advance game_data rnd]> games,
     Ok (GameData.state (advance game_data rnd))).
Proof.
  intros H Hlive Hb. unfold Api.play_round.
  by rewrite (play_round_live _ _ _ _ H Hlive Hb).
Qed.

Lemma play_rounds_advance_all (draws : list Draw) (games : Games)
    (game_id : string) (game_data : GameData.t) :
  games !! game_id = Some game_data ->
  board_ok (GameData.board game_data) ->
  play_rounds games game_id draws
  = <[game_id := advance_all game_data draws]> games.
Proof.
  revert games game_data.
  induction draws as [|rnd draws IH]; intros games game_data H Hb; cbn.
  - by rewrite insert_id.
  - destruct (GameState.game_over (GameData.state game_data)) eqn:Hover.
    + rewrite (api_play_round_over _ _ _ _ H Hover). cbn. by apply IH.
    + rewrite (api_play_round_live _ _ _ _ H Hover Hb). cbn.
      rewrite (IH _ (advance game_data rnd)).
      * by rewrite insert_insert_eq.
      * by rewrite lookup_insert_eq.
      * by apply moved_ok.
Qed.

(** ** The invariants hold of every session *)

Lemma fresh_ok (game_id : string) (utcnow : Z) : session_ok (fresh game_id utcnow).
Proof.
  unfold session_ok. cbn. repeat split; done || lia.
Qed.

Lemma round_record_ok (game_data : GameData.t) (rnd : Draw) :
  board_ok (GameData.board game_data) ->
  GameState.current_round (GameData.state game_data)
  = Z.of_nat (length (GameState.rounds (GameData.state game_data))) ->
  round_ok (length (GameState.rounds (GameData.state game_data)))
           (round_record game_data rnd).
Proof.
  intros (Hsize & Hbishop & Hon) Hcount. unfold round_ok. cbv zeta.
  split; [cbn; lia|]. split; [done|]. split.
  - exists (Piece.x (Board.rook (GameData.board game_data))),
           (Piece.y (Board.rook (GameData.board game_data))).
    split; [done|]. split; [done|].
    unfold round_record, landing. cbn. destruct (choice rnd); cbn; auto.
  - unfold round_record. cbn [GameRound.captured GameRound.rook_position_after].
    unfold Board.check_capture, moved. cbn. by rewrite Hbishop.
Qed.

Lemma advance_ok (game_data : GameData.t) (rnd : Draw) :
  session_ok game_data ->
  GameState.game_over (GameData.state game_data) = false ->
  session_ok (advance game_data rnd).
Proof.
  intros (Hb & Hcount & Hrounds & _ & Hlive & _) Hover.
  destruct (Hlive Hover) as (Hwin & Hlt & Hnc).
  pose proof (round_record_ok game_data rnd Hb Hcount) as Hr.
  unfold session_ok, advance. cbn. rewrite Hover, orb_false_r.
  split; [by apply moved_ok|].
  split; [rewrite length_app; cbn; lia|].
  split.
  { intros i r Hi. apply lookup_app_Some in Hi as [Hi | [Hlen Hi]].
    - by apply Hrounds.
    - apply list_lookup_singleton_Some in Hi as [Hi <-].
      replace i with (length (GameState.rounds (GameData.state game_data)))
        by lia.
      exact Hr. }
  split; [lia|].
  rewrite Z.geb_leb.
  assert (Hcap : GameRound.captured (round_record game_data rnd)
                 = Board.check_capture (moved (GameData.board game_data) rnd))
    by reflexivity.
  destruct (Board.check_capture (moved (GameData.board game_data) rnd)); cbn.
  - split; [done|]. intros _.
    exists (GameState.rounds (GameData.state game_data)),
           (round_record game_data rnd). auto.
  - destruct (Z.leb_spec 15
      (GameState.current_round (GameData.state game_data) + 1)) as [Hge | Hlt'].
    + split; [done|]. intros _.
      exists (GameState.rounds (GameData.state game_data)),
             (round_record game_data rnd).
      split; [done|]. split; [done|]. right. repeat split; [done | lia].
    + split; [|done]. intros _. split; [done|]. split; [lia|].
      apply Forall_app. split; [done|]. by constructor.
Qed.

Lemma advance_all_ok (draws : list Draw) (game_data : GameData.t) :
  session_ok game_data -> session_ok (advance_all game_data draws).
Proof.
  revert game_data. induction draws as [|rnd draws IH]; intros gd Hok; cbn.
  - done.
  - apply IH.
    destruct (GameState.game_over (GameData.state gd)) eqn:Hover; [done|].
    by apply advance_ok.
Qed.

(** Each call either finds the session over or adds one to the counter. *)
Lemma advance_all_progress (draws : list Draw) (game_data : GameData.t) :
  let s' := GameData.state (advance_all game_data draws) in
  GameState.game_over s' = true \/
  GameState.current_round s'
  = GameState.current_round (GameData.state game_data)
    + Z.of_nat (length draws).
Proof.
  revert game_data. induction draws as [|rnd draws IH]; intros gd; cbn.
  - right. lia.
  - destruct (GameState.game_over (GameData.state gd)) eqn:Hover.
    + left. clear IH. revert gd Hover.
      induction draws as [|rnd' draws IH]; intros gd Hover; cbn; [done|].
      rewrite Hover. by apply IH.
    + destruct (IH (advance gd rnd)) as [H | H]; [by left|].
      right. rewrite H. cbn. lia.
Qed.


Lemma get_game_closed (games : Games) (game_id : string) :
  Api.get_game games game_id
  = (games, match games !! game_id with
            | Some game_data => Ok (GameData.state game_data)
            | None => Raise Api.not_found
            end).
Proof.
  unfold Api.get_game, GameService.get_game. by destruct (games !! game_id).
Qed.

Lemma serve_ok (games : Games) (r : request) :
  map_Forall entry_ok games -> map_Forall entry_ok (serve games r).1.
Proof.
  intros Hall. destruct r as [uuid4 utcnow | game_id | game_id rnd | game_id utcnow];
    cbn [serve].
  - unfold Api.create_game. rewrite create_game_fresh. cbn.
    apply map_Forall_insert_2; [|done]. split; [done | apply fresh_ok].
  - by rewrite get_game_closed.
  - destruct (games !! game_id) as [gd|] eqn:Hgd.
    + pose proof (Hall _ _ Hgd) as [Hid Hok].
      destruct (GameState.game_over (GameData.state gd)) eqn:Hover.
      * by rewrite (api_play_round_over _ _ _ _ Hgd Hover).
      * rewrite (api_play_round_live _ _ _ _ Hgd Hover) by apply Hok. cbn.
        apply map_Forall_insert_2; [|done]. split; [done | by apply advance_ok].
    + by rewrite api_play_round_absent.
  - destruct (games !! game_id) as [gd|] eqn:Hgd.
    + rewrite reset_game_fresh by eauto. cbn.
      apply map_Forall_insert_2; [|done]. split; [done | apply fresh_ok].
    + by rewrite reset_game_absent.
Qed.

Lemma reachable_ok (games : Games) :
  reachable games -> map_Forall entry_ok games.
Proof.
  induction 1 as [|games r _ IH].
  - apply map_Forall_empty.
  - by apply serve_ok.
Qed.

(** ** Who wins, from the invariant *)

Lemma session_ok_winner (game_data : GameData.t) :
  session_ok game_data ->
  let s := GameData.state game_data in
  (length (GameState.rounds s) <= 15)%nat /\
  (GameState.game_over s = false -> GameState.winner s = None) /\
  (GameState.game_over s = true ->
     GameState.winner s = Some "Bishop (White)" \/
     GameState.winner s = Some "Rook (Black)") /\
  (GameState.winner s = Some "Bishop (White)" <->
     exists r, last (GameState.rounds s) = Some r /\ GameRound.captured r = true) /\
  (GameState.winner s = Some "Rook (Black)" <->
     length (GameState.rounds s) = 15%nat /\
     Forall not_captured (GameState.rounds s)).
Proof.
  intros (_ & Hcount & _ & Hle & Hlive & Hover). cbv zeta.
  split; [lia|].
  destruct (GameState.game_over (GameData.state game_data)) eqn:Hgo.
  - destruct (Hover eq_refl) as (earlier & r & Hrounds & Hnc & Hwho).
    rewrite Hrounds in *. rewrite last_snoc.
    split; [done|].
    destruct Hwho as [[Hcap Hwin] | (Hcap & Hwin & Hfull)]; rewrite Hwin.
    + split; [auto|]. split.
      * split; [eauto | done].
      * split; [done|]. intros [_ Hall].
        apply Forall_app in Hall as [_ Hall].
        rewrite Forall_singleton in Hall. unfold not_captured in Hall. congruence.
    + split; [auto|]. split.
      * split; [done|]. intros (r' & [= <-] & Hcap'). congruence.
      * split; [|done]. intros _. split; [lia|].
        apply Forall_app. split; [done|]. by apply Forall_singleton.
  - destruct (Hlive eq_refl) as (Hwin & Hlt & Hnc). rewrite Hwin.
    split; [done|]. split; [done|]. split.
    + split; [done|]. intros (r & Hlast & Hcap).
      apply last_Some in Hlast as [earlier Hrounds]. rewrite Hrounds in Hnc.
      apply Forall_app in Hnc as [_ Hnc].
      rewrite Forall_singleton in Hnc. unfold not_captured in Hnc. congruence.
    + split; [done|]. intros [Hfull _]. lia.
Qed.

(** ** A session from its creation *)

Lemma play_rounds_created (games : Games) (uuid4 : string) (utcnow : Z)
    (draws : list Draw) :
  play_rounds (Api.create_game games uuid4 utcnow).1 uuid4 draws !! uuid4
  = Some (advance_all (fresh uuid4 utcnow) draws).
Proof.
  unfold Api.create_game. rewrite create_game_fresh. cbn [fst].
  rewrite (play_rounds_advance_all _ _ _ (fresh uuid4 utcnow)).
  - by rewrite lookup_insert_eq.
  - by rewrite lookup_insert_eq.
  - apply fresh_ok.
Qed.

Lemma live_before_each_count (draws : list Draw) (games : Games)
    (game_id : string) (game_data : GameData.t) :
  games !! game_id = Some game_data ->
  board_ok (GameData.board game_data) ->
  live_before_each games game_id draws = true ->
  GameState.current_round (GameData.state (advance_all game_data draws))
  = GameState.current_round (GameData.state game_data)
    + Z.of_nat (length draws).
Proof.
  revert games game_data.
  induction draws as [|rnd draws IH]; intros games gd Hgd Hb Hlive; cbn.
  - lia.
  - cbn in Hlive. apply andb_true_iff in Hlive as [Hnow Hlater].
    unfold live in Hnow. rewrite Hgd in Hnow. apply negb_true_iff in Hnow.
    rewrite Hnow.
    rewrite (api_play_round_live _ _ _ _ Hgd Hnow Hb) in Hlater. cbn in Hlater.
    rewrite (IH _ (advance gd rnd) (lookup_insert_eq _ _ _)
               (moved_ok _ rnd Hb) Hlater).
    cbn. lia.
Qed.

(** C1.  A session created by [create_game] is over after 15 calls of
    [play_round], whatever the draws; it never records more than 15 rounds;
    while it is not over it has no winner, and once over the winner is one
    of the two sides; the winner is the bishop exactly when the capture
    check of the last recorded round was true, and the rook exactly when 15
    rounds were recorded and none captured; the recorded capture flag is
    the bishop's capture predicate on the rook's square after the move. *)
Theorem termination_within_15_rounds (games : Games) (uuid4 : string)
    (utcnow : Z) (draws : list Draw) :
  exists game_data,
    play_rounds (Api.create_game games uuid4 utcnow).1 uuid4 draws !! uuid4
    = Some game_data /\
    let s := GameData.state game_data in
    ((15 <= length draws)%nat -> GameState.game_over s = true) /\
    (length (GameState.rounds s) <= 15)%nat /\
    (GameState.game_over s = false -> GameState.winner s = None) /\
    (GameState.game_over s = true ->
       GameState.winner s = Some "Bishop (White)" \/
       GameState.winner s = Some "Rook (Black)") /\
    (GameState.winner s = Some "Bishop (White)" <->
       exists r, last (GameState.rounds s) = Some r /\
                 GameRound.captured r = true) /\
    (GameState.winner s = Some "Rook (Black)" <->
       length (GameState.rounds s) = 15%nat /\
       Forall (fun r => GameRound.captured r = false) (GameState.rounds s)) /\
    Forall (fun r =>
              GameRound.captured r
              = Bishop.can_capture (Bishop.new (2, 2))
                  (Position.x (GameRound.rook_position_after r))
                  (Position.y (GameRound.rook_position_after r)))
           (GameState.rounds s).
Proof.
  exists (advance_all (fresh uuid4 utcnow) draws).
  split; [apply play_rounds_created|].
  pose proof (advance_all_ok draws _ (fresh_ok uuid4 utcnow)) as Hok.
  pose proof (session_ok_winner _ Hok) as (Hlen & Hnone & Hsome & Hb & Hr).
  cbv zeta. split; [|split; [done|split; [done|split; [done|split; [done|split; [done|]]]]]].
  - intros Hdraws.
    destruct (advance_all_progress draws (fresh uuid4 utcnow)) as [H | H];
      [done|].
    destruct Hok as (_ & _ & _ & _ & Hlive & _).
    destruct (GameState.game_over
                (GameData.state (advance_all (fresh uuid4 utcnow) draws)));
      [done|].
    destruct (Hlive eq_refl) as (_ & Hlt & _). cbn in H. lia.
  - destruct Hok as (_ & _ & Hrounds & _).
    apply Forall_lookup. intros i r Hi. by destruct (Hrounds i r Hi) as (_ & _ & _ & ?).
Qed.

Lemma termination_within_15_rounds_witness :
  exists game_data,
    play_rounds (Api.create_game ∅ "g" 0).1 "g"
      (replicate 15 (mkDraw heads 4 4)) !! "g"
    = Some game_data /\
    GameState.game_over (GameData.state game_data) = true.
Proof.
  destruct (termination_within_15_rounds ∅ "g" 0
              (replicate 15 (mkDraw heads 4 4)))
    as (game_data & Hstored & Hover & _).
  exists game_data. split; [exact Hstored|].
  apply Hover. rewrite length_replicate. lia.
Defined.

(** C4.  When a session has been created and [play_round] has then been
    called once per draw, the session being stored and not over before
    each call, the history has as many rounds as there were calls, the
    counter is that number, and the round at 1-based position [i] has
    [round_number] [i]. *)
Theorem round_count_invariant (games : Games) (uuid4 : string) (utcnow : Z)
    (draws : list Draw) :
  live_before_each (Api.create_game games uuid4 utcnow).1 uuid4 draws = true ->
  exists game_data,
    play_rounds (Api.create_game games uuid4 utcnow).1 uuid4 draws !! uuid4
    = Some game_data /\
    let s := GameData.state game_data in
    length (GameState.rounds s) = length draws /\
    GameState.current_round s = Z.of_nat (length draws) /\
    forall (i : nat) (r : GameRound.t),
      GameState.rounds s !! i = Some r ->
      GameRound.round_number r = Z.of_nat (S i).
Proof.
  intros Hlive.
  exists (advance_all (fresh uuid4 utcnow) draws).
  split; [apply play_rounds_created|].
  pose proof (advance_all_ok draws _ (fresh_ok uuid4 utcnow))
    as (_ & Hcount & Hrounds & _).
  assert (Hk : GameState.current_round
                 (GameData.state (advance_all (fresh uuid4 utcnow) draws))
               = Z.of_nat (length draws)).
  { unfold Api.create_game in Hlive. rewrite create_game_fresh in Hlive.
    cbn [fst] in Hlive.
    rewrite (live_before_each_count draws _ uuid4 (fresh uuid4 utcnow)
               (lookup_insert_eq _ _ _) (proj1 (fresh_ok uuid4 utcnow)) Hlive).
    cbn. lia. }
  cbv zeta. split; [lia|]. split; [done|].
  intros i r Hi. destruct (Hrounds i r Hi) as [Hn _]. lia.
Qed.

Lemma round_count_invariant_witness :
  exists game_data,
    play_rounds (Api.create_game ∅ "g" 0).1 "g"
      [mkDraw tails 1 1; mkDraw heads 2 3] !! "g"
    = Some game_data /\
    let s := GameData.state game_data in
    length (GameState.rounds s) = 2%nat /\
    GameState.current_round s = 2 /\
    forall (i : nat) (r : GameRound.t),
      GameState.rounds s !! i = Some r ->
      GameRound.round_number r = Z.of_nat (S i).
Proof.
  apply (round_count_invariant ∅ "g" 0 [mkDraw tails 1 1; mkDraw heads 2 3]).
  vm_compute. reflexivity.
Defined.

(** ** The routes on stored and unknown sessions *)

(** C3.  On a stored session that is over, [play_round] returns the
    stored state and leaves the dictionary as it was, so that rounds,
    counter, positions, flag and winner of the session are what they
    were. *)
Theorem play_round_game_over_noop (games : Games) (game_id : string)
    (rnd : Draw) (game_data : GameData.t) :
  games !! game_id = Some game_data ->
  GameState.game_over (GameData.state game_data) = true ->
  GameService.play_round games game_id rnd
  = (games, Ok (Some (GameData.state game_data))) /\
  Api.play_round games game_id rnd = (games, Ok (GameData.state game_data)).
Proof.
  intros Hgd Hover. split.
  - by apply play_round_over.
  - by apply api_play_round_over.
Qed.

Lemma play_round_game_over_noop_witness :
  let game_data := advance (fresh "g" 0) (mkDraw heads 3 4) in
  let games : Games := <["g" := game_data]> ∅ in
  GameState.game_over (GameData.state game_data) = true /\
  GameService.play_round games "g" (mkDraw tails 1 1)
  = (games, Ok (Some (GameData.state game_data))) /\
  Api.play_round games "g" (mkDraw tails 1 1)
  = (games, Ok (GameData.state game_data)).
Proof.
  cbv zeta. split; [reflexivity|].
  apply (play_round_game_over_noop _ "g" (mkDraw tails 1 1)
           (advance (fresh "g" 0) (mkDraw heads 3 4))).
  - vm_compute. reflexivity.
  - reflexivity.
Defined.

(** C6.  [create_game] returns a state with the bishop at c3, that is
    (2,2), the rook at h1, that is (7,0), no rounds, counter 0, not over,
    no winner, and the identifier it was allocated; the dictionary then
    holds that state with a new board under that identifier, and its other
    entries are untouched. *)
Theorem create_game_initial (games : Games) (uuid4 : string) (utcnow : Z) :
  exists game_state,
    GameService.create_game games uuid4 utcnow
    = (<[uuid4 := {| GameData.state := game_state;
                     GameData.board := Board.new |}]> games,
       Ok game_state) /\
    GameState.game_id game_state = uuid4 /\
    GameState.bishop_position game_state
    = {| Position.file := "c"; Position.rank := 3;
         Position.x := 2; Position.y := 2 |} /\
    GameState.rook_position game_state
    = {| Position.file := "h"; Position.rank := 1;
         Position.x := 7; Position.y := 0 |} /\
    GameState.rounds game_state = [] /\
    GameState.current_round game_state = 0 /\
    GameState.game_over game_state = false /\
    GameState.winner game_state = None /\
    (GameService.create_game games uuid4 utcnow).1 !! uuid4
    = Some {| GameData.state := game_state; GameData.board := Board.new |}.
Proof.
  exists (GameData.state (fresh uuid4 utcnow)).
  rewrite create_game_fresh. cbn [fst].
  rewrite lookup_insert_eq. repeat split.
Qed.

(** C7.  For a stored session, whatever its state, [reset_game] returns a
    state with the identifier of the request, which in the running service
    is the identifier of the state stored before, no rounds, counter 0, not
    over, no winner, the bishop at (2,2) and the rook at (7,0), and the
    dictionary then holds that state with a new board in place of the old
    entry. *)
Theorem reset_game_initial (games : Games) (game_id : string) (utcnow : Z)
    (game_data : GameData.t) :
  games !! game_id = Some game_data ->
  exists game_state,
    Api.reset_game games game_id utcnow
    = (<[game_id := {| GameData.state := game_state;
                       GameData.board := Board.new |}]> games,
       Ok game_state) /\
    GameState.game_id game_state = game_id /\
    (reachable games ->
     GameState.game_id game_state
     = GameState.game_id (GameData.state game_data)) /\
    GameState.rounds game_state = [] /\
    GameState.current_round game_state = 0 /\
    GameState.game_over game_state = false /\
    GameState.winner game_state = None /\
    GameState.bishop_position game_state
    = {| Position.file := "c"; Position.rank := 3;
         Position.x := 2; Position.y := 2 |} /\
    GameState.rook_position game_state
    = {| Position.file := "h"; Position.rank := 1;
         Position.x := 7; Position.y := 0 |} /\
    (Piece.x (Board.bishop Board.new), Piece.y (Board.bishop Board.new)) = (2, 2) /\
    (Piece.x (Board.rook Board.new), Piece.y (Board.rook Board.new)) = (7, 0) /\
    (Api.reset_game games game_id utcnow).1 !! game_id
    = Some {| GameData.state := game_state; GameData.board := Board.new |}.
Proof.
  intros Hgd. exists (GameData.state (fresh game_id utcnow)).
  rewrite reset_game_fresh by eauto. cbn [fst].
  rewrite lookup_insert_eq.
  split; [done|]. split; [done|]. split; [|repeat split].
  intros Hreach. by destruct (reachable_ok _ Hreach _ _ Hgd) as [-> _].
Qed.

Lemma reset_game_initial_witness :
  let games : Games :=
    (serve (serve GameService.new (POST_game "g" 0)).1
           (POST_round "g" (mkDraw heads 3 4))).1 in
  exists game_state,
    (Api.reset_game games "g" 9).2 = Ok game_state /\
    GameState.game_id game_state = "g" /\
    GameState.rounds game_state = [] /\
    GameState.current_round game_state = 0 /\
    GameState.game_over game_state = false.
Proof.
  cbv zeta.
  destruct (reset_game_initial
              (serve (serve GameService.new (POST_game "g" 0)).1
                     (POST_round "g" (mkDraw heads 3 4))).1 "g" 9
              (advance (fresh "g" 0) (mkDraw heads 3 4)))
    as (s & Hcall & Hid & _ & Hrounds & Hcount & Hover & _).
  - vm_compute. reflexivity.
  - exists s. rewrite Hcall. auto.
Defined.

(** C8.  With an identifier that is not in the dictionary, the service's
    [get_game] and [play_round] return [None], the three routes raise the
    404 "Game not found" error, and the dictionary is left as it was; with
    an identifier that is in the dictionary of the running service, the
    three routes return a state and raise nothing. *)
Theorem unknown_game_not_found (games : Games) (game_id : string)
    (rnd : Draw) (utcnow : Z) :
  reachable games ->
  (games !! game_id = None ->
     GameService.get_game games game_id = (games, Ok None) /\
     GameService.play_round games game_id rnd = (games, Ok None) /\
     Api.get_game games game_id = (games, Raise Api.not_found) /\
     Api.play_round games game_id rnd = (games, Raise Api.not_found) /\
     Api.reset_game games game_id utcnow = (games, Raise Api.not_found)) /\
  (is_Some (games !! game_id) ->
     exists s1 s2 s3,
       (Api.get_game games game_id).2 = Ok s1 /\
       (Api.play_round games game_id rnd).2 = Ok s2 /\
       (Api.reset_game games game_id utcnow).2 = Ok s3).
Proof.
  intros Hreach. split.
  - intros Hnone. split; [|split; [|split; [|split]]].
    + unfold GameService.get_game. by rewrite Hnone.
    + by apply play_round_absent.
    + rewrite get_game_closed. by rewrite Hnone.
    + by apply api_play_round_absent.
    + by apply reset_game_absent.
  - intros [gd Hgd].
    pose proof (reachable_ok _ Hreach _ _ Hgd) as [_ Hok].
    exists (GameData.state gd).
    exists (if GameState.game_over (GameData.state gd) then GameData.state gd
            else GameData.state (advance gd rnd)).
    exists (GameData.state (fresh game_id utcnow)).
    split; [|split].
    + rewrite get_game_closed. by rewrite Hgd.
    + destruct (GameState.game_over (GameData.state gd)) eqn:Hover.
      * by rewrite (api_play_round_over _ _ _ _ Hgd Hover).
      * by rewrite (api_play_round_live _ _ _ _ Hgd Hover) by apply Hok.
    + by rewrite reset_game_fresh by eauto.
Qed.

Lemma unknown_game_not_found_witness :
  let games := (serve GameService.new (POST_game "g" 0)).1 in
  Api.play_round games "invalid-id-123" (mkDraw heads 1 1)
  = (games, Raise Api.not_found) /\
  exists s, (Api.play_round games "g" (mkDraw heads 1 1)).2 = Ok s.
Proof.
  cbv zeta.
  destruct (unknown_game_not_found
              (serve GameService.new (POST_game "g" 0)).1
              "invalid-id-123" (mkDraw heads 1 1) 0) as [Habsent _].
  { apply reachable_serve, reachable_new. }
  destruct (unknown_game_not_found
              (serve GameService.new (POST_game "g" 0)).1
              "g" (mkDraw heads 1 1) 0) as [_ Hpresent].
  { apply reachable_serve, reachable_new. }
  split.
  - apply Habsent. vm_compute. reflexivity.
  - destruct Hpresent as (_ & s2 & _ & _ & Hs2 & _).
    + eexists. vm_compute. reflexivity.
    + by exists s2.
Defined.

(** C10.  [get_game] returns the dictionary it was given, for every
    identifier; with a stored identifier it returns the stored state, and
    [None] (the route: the 404 error) otherwise. *)
Theorem get_game_read_only (games : Games) (game_id : string) :
  GameService.get_game games game_id
  = (games, Ok (GameData.state <$> games !! game_id)) /\
  Api.get_game games game_id
  = (games, match games !! game_id with
            | Some game_data => Ok (GameData.state game_data)
            | None => Raise Api.not_found
            end).
Proof.
  split.
  - unfold GameService.get_game. by destruct (games !! game_id).
  - apply get_game_closed.
Qed.

(** ** Dice and positions of the recorded rounds *)

Lemma advance_all_dice (draws : list Draw) (game_data : GameData.t) :
  Forall draw_ok draws ->
  Forall dice_ok (GameState.rounds (GameData.state game_data)) ->
  Forall dice_ok
    (GameState.rounds (GameData.state (advance_all game_data draws))).
Proof.
  intros Hdraws. revert game_data.
  induction Hdraws as [|rnd draws Hrnd _ IH]; intros gd Hdice; cbn.
  - done.
  - apply IH.
    destruct (GameState.game_over (GameData.state gd)); [done|]. cbn.
    apply Forall_app. split; [done|]. by apply Forall_singleton.
Qed.

Lemma position_of_inj (x y x' y' : Z) :
  position_of x y = position_of x' y' <-> x = x' /\ y = y'.
Proof.
  split.
  - intros H. split.
    + exact (f_equal Position.x H).
    + exact (f_equal Position.y H).
  - by intros [-> ->].
Qed.

Lemma round_stays_iff (i : nat) (r : GameRound.t) :
  round_ok i r -> dice_ok r ->
  GameRound.rook_position_after r = GameRound.rook_position_before r <->
  DiceRoll.total (GameRound.dice_roll r) = 8.
Proof.
  intros (_ & Htotal & (x & y & [Hx Hy] & Hbefore & Hafter) & _) [Hd1 Hd2].
  cbv zeta in *. rewrite Hbefore.
  set (t := DiceRoll.total (GameRound.dice_roll r)) in *.
  assert (Ht : 2 <= t <= 12) by lia.
  destruct Hafter as [[_ ->] | [_ ->]]; rewrite position_of_inj.
  - pose proof (Z.div_mod (y + t) 8 ltac:(lia)).
    pose proof (Z.mod_pos_bound (y + t) 8 ltac:(lia)).
    split.
    + intros [_ Hy']. lia.
    + intros ->. split; [done|].
      replace (y + 8) with (y + 1 * 8) by lia.
      rewrite Z.mod_add by lia. apply Z.mod_small. lia.
  - pose proof (Z.div_mod (x + t) 8 ltac:(lia)).
    pose proof (Z.mod_pos_bound (x + t) 8 ltac:(lia)).
    split.
    + intros [Hx' _]. lia.
    + intros ->. split; [|done].
      replace (x + 8) with (x + 1 * 8) by lia.
      rewrite Z.mod_add by lia. apply Z.mod_small. lia.
Qed.

(** C9.  However a created session has been played, with dice that
    [randint(1, 6)] can return, each recorded round has both dice in 1..6
    and their sum as total, and the rook's position after the move is its
    position before it exactly when the total is 8. *)
Theorem recorded_rounds_dice (games : Games) (uuid4 : string) (utcnow : Z)
    (draws : list Draw) :
  Forall draw_ok draws ->
  exists game_data,
    play_rounds (Api.create_game games uuid4 utcnow).1 uuid4 draws !! uuid4
    = Some game_data /\
    Forall (fun r =>
              let dice := GameRound.dice_roll r in
              1 <= DiceRoll.die1 dice <= 6 /\
              1 <= DiceRoll.die2 dice <= 6 /\
              DiceRoll.total dice = DiceRoll.die1 dice + DiceRoll.die2 dice /\
              (GameRound.rook_position_after r = GameRound.rook_position_before r
               <-> DiceRoll.total dice = 8))
           (GameState.rounds (GameData.state game_data)).
Proof.
  intros Hdraws.
  exists (advance_all (fresh uuid4 utcnow) draws).
  split; [apply play_rounds_created|].
  pose proof (advance_all_ok draws _ (fresh_ok uuid4 utcnow))
    as (_ & _ & Hrounds & _).
  pose proof (advance_all_dice draws (fresh uuid4 utcnow) Hdraws
                (Forall_nil_2 _)) as Hdice.
  apply Forall_lookup. intros i r Hi.
  pose proof (Hrounds i r Hi) as Hr.
  pose proof (proj1 (Forall_lookup _ _) Hdice i r Hi) as Hd.
  cbv zeta. destruct Hd as [Hd1 Hd2].
  split; [done|]. split; [done|]. split; [apply Hr|].
  by apply (round_stays_iff i).
Qed.

Lemma recorded_rounds_dice_witness :
  exists game_data,
    play_rounds (Api.create_game ∅ "g" 0).1 "g"
      [mkDraw tails 1 1; mkDraw heads 4 4] !! "g"
    = Some game_data /\
    Forall (fun r =>
              let dice := GameRound.dice_roll r in
              1 <= DiceRoll.die1 dice <= 6 /\
              1 <= DiceRoll.die2 dice <= 6 /\
              DiceRoll.total dice = DiceRoll.die1 dice + DiceRoll.die2 dice /\
              (GameRound.rook_position_after r = GameRound.rook_position_before r
               <-> DiceRoll.total dice = 8))
           (GameState.rounds (GameData.state game_data)).
Proof.
  apply (recorded_rounds_dice ∅ "g" 0 [mkDraw tails 1 1; mkDraw heads 4 4]).
  repeat (constructor; [unfold draw_ok; cbn; lia|]). constructor.
Defined.

(** * Further properties of the board model *)

(** ** Notation *)

(** X1.  [get_position] returns exactly when [ord('a') + x] is in
    [range(0x110000)], that is for [-97 <= x < 1114015], and then the
    position has rank [y + 1] and the piece's coordinates.  Outside that
    range it raises [OverflowError] when [ord('a') + x] does not fit a C
    [int], that is for [x < -2147483745] or [x > 2147483550], and
    [ValueError] otherwise. *)
Theorem get_position_value_error (self : Piece.t) :
  ((exists file,
      Piece.get_position self
      = Ok {| Position.file := file; Position.rank := Piece.y self + 1;
              Position.x := Piece.x self; Position.y := Piece.y self |}) <->
   -97 <= Piece.x self < 1114015) /\
  (Piece.get_position self = Raise ValueError <->
   -2147483745 <= Piece.x self < -97 \/
   1114015 <= Piece.x self <= 2147483550) /\
  (Piece.get_position self = Raise OverflowError <->
   Piece.x self < -2147483745 \/ 2147483550 < Piece.x self).
Proof.
  unfold Piece.get_position, chr. change (ord "a") with 97.
  destruct (Z.ltb_spec (97 + Piece.x self) (-0x80000000));
    destruct (Z.ltb_spec 0x7FFFFFFF (97 + Piece.x self));
    destruct (Z.leb_spec 0 (97 + Piece.x self));
    destruct (Z.ltb_spec (97 + Piece.x self) 0x110000); cbn.
  all: split; [|split];
    (split; [try (intros [file Hfile]); try discriminate; try lia
            | try lia; eauto]).
Qed.

Example get_position_overflow :
  Piece.get_position (Rook.new (2147483551, 0)) = Raise OverflowError /\
  Piece.get_position (Rook.new (2147483550, 0)) = Raise ValueError /\
  Piece.get_position (Rook.new (-2147483746, 0)) = Raise OverflowError.
Proof. repeat split. Qed.

Lemma position_of_ok (x y : Z) : on_board x y -> position_ok (position_of x y).
Proof.
  intros [Hx Hy]. unfold position_ok. cbn.
  split; [done|]. split; [done|]. split; [|lia].
  assert (H : x = 0 \/ x = 1 \/ x = 2 \/ x = 3 \/ x = 4 \/ x = 5 \/ x = 6 \/ x = 7)
    by lia.
  destruct H as [-> | [-> | [-> | [-> | [-> | [-> | [-> | ->]]]]]]]; cbn; tauto.
Qed.

Lemma file_letter_inj (x x' : Z) :
  0 <= x <= 7 -> 0 <= x' <= 7 ->
  String (byte_of (ord "a" + x)) "" = String (byte_of (ord "a" + x')) "" ->
  x = x'.
Proof.
  intros Hx Hx' H.
  assert (H1 : x = 0 \/ x = 1 \/ x = 2 \/ x = 3 \/ x = 4 \/ x = 5 \/ x = 6 \/ x = 7)
    by lia.
  assert (H2 : x' = 0 \/ x' = 1 \/ x' = 2 \/ x' = 3 \/ x' = 4 \/ x' = 5 \/
               x' = 6 \/ x' = 7) by lia.
  destruct H1 as [-> | [-> | [-> | [-> | [-> | [-> | [-> | ->]]]]]]];
    destruct H2 as [-> | [-> | [-> | [-> | [-> | [-> | [-> | ->]]]]]]];
    solve [reflexivity | vm_compute in H; discriminate H].
Qed.

(** X2.  For pieces on the board, [get_position] returns a file among
    "a".."h" and a rank in 1..8, and file and rank together determine the
    square: two pieces with the same file and rank have the same
    coordinates. *)
Theorem notation_determines_square (p q : Piece.t) :
  on_board (Piece.x p) (Piece.y p) ->
  on_board (Piece.x q) (Piece.y q) ->
  exists a b,
    Piece.get_position p = Ok a /\ Piece.get_position q = Ok b /\
    position_ok a /\ position_ok b /\
    (Position.file a = Position.file b -> Position.rank a = Position.rank b ->
     Piece.x p = Piece.x q /\ Piece.y p = Piece.y q).
Proof.
  intros Hp Hq.
  exists (position_of (Piece.x p) (Piece.y p)),
         (position_of (Piece.x q) (Piece.y q)).
  rewrite !get_position_on_board by (apply Hp || apply Hq).
  split; [done|]. split; [done|].
  split; [by apply position_of_ok|]. split; [by apply position_of_ok|].
  cbn. intros Hfile Hrank. split; [|lia].
  apply file_letter_inj; [apply Hp | apply Hq | done].
Qed.

Lemma notation_determines_square_witness :
  exists a b,
    Piece.get_position (Bishop.new (2, 2)) = Ok a /\
    Piece.get_position (Rook.new (7, 0)) = Ok b /\
    position_ok a /\ position_ok b /\
    (Position.file a = Position.file b -> Position.rank a = Position.rank b ->
     Piece.x (Bishop.new (2, 2)) = Piece.x (Rook.new (7, 0)) /\
     Piece.y (Bishop.new (2, 2)) = Piece.y (Rook.new (7, 0))).
Proof.
  apply (notation_determines_square (Bishop.new (2, 2)) (Rook.new (7, 0)));
    unfold on_board; cbn; lia.
Defined.

(** ** Wrapping *)

(** X3.  On a board of positive size, [wrap_coordinates] accepts every
    pair of integers, negative ones too, and returns coordinates in
    [0, size); wrapping the result again changes nothing, and adding
    multiples of the size to the arguments does not change the result. *)
Theorem wrap_coordinates_any_integer (b : Board.t) (x y : Z) :
  0 < Board.size b ->
  exists x' y',
    Board.wrap_coordinates b x y = Ok (x', y') /\
    0 <= x' < Board.size b /\ 0 <= y' < Board.size b /\
    Board.wrap_coordinates b x' y' = Ok (x', y') /\
    forall j k,
      Board.wrap_coordinates b (x + j * Board.size b) (y + k * Board.size b)
      = Ok (x', y').
Proof.
  intros Hsize. exists (x mod Board.size b), (y mod Board.size b).
  unfold Board.wrap_coordinates, py_mod.
  destruct (Z.eqb_spec (Board.size b) 0) as [H0 | _]; [lia|]. cbn.
  split; [done|].
  split; [by apply Z.mod_pos_bound|]. split; [by apply Z.mod_pos_bound|].
  split.
  - by rewrite !Z.mod_mod by lia.
  - intros j k. by rewrite !Z.mod_add by lia.
Qed.

Lemma wrap_coordinates_any_integer_witness :
  exists x' y',
    Board.wrap_coordinates Board.new (-1) (-17) = Ok (x', y') /\
    0 <= x' < 8 /\ 0 <= y' < 8 /\
    Board.wrap_coordinates Board.new x' y' = Ok (x', y') /\
    forall j k,
      Board.wrap_coordinates Board.new (-1 + j * 8) (-17 + k * 8) = Ok (x', y').
Proof.
  apply (wrap_coordinates_any_integer Board.new (-1) (-17)). reflexivity.
Defined.

(** ** Moves of the rook *)

Lemma move_rook_closed (b : Board.t) (direction : string) (squares : Z) :
  Board.size b <> 0 ->
  Board.move_rook b direction squares =
    let '(new_x, new_y) :=
      if String.eqb direction "up"
      then (Piece.x (Board.rook b) mod Board.size b,
            (Piece.y (Board.rook b) + squares) mod Board.size b)
      else ((Piece.x (Board.rook b) + squares) mod Board.size b,
            Piece.y (Board.rook b) mod Board.size b) in
    Ok ({| Board.size := Board.size b; Board.bishop := Board.bishop b;
           Board.rook := Piece.set_position (Board.rook b) new_x new_y |},
        (new_x, new_y)).
Proof.
  intros Hsize. unfold Board.move_rook, Board.wrap_coordinates, py_mod.
  apply Z.eqb_neq in Hsize.
  destruct (String.eqb direction "up"); by rewrite Hsize.
Qed.

(** X4.  Two moves of the rook in the same direction compose into one move
    by the sum of the magnitudes: board and returned square are the
    same. *)
Theorem move_rook_additive (b : Board.t) (direction : string) (m n : Z) :
  Board.size b <> 0 ->
  (r ← Board.move_rook b direction m; Board.move_rook r.1 direction n)
  = Board.move_rook b direction (m + n).
Proof.
  intros Hsize. rewrite !move_rook_closed by done.
  destruct (String.eqb direction "up") eqn:Hdir;
    cbv [mbind result_bind]; cbn [fst];
    rewrite move_rook_closed by done; rewrite Hdir;
    unfold Piece.set_position; cbn;
    rewrite Z.mod_mod, Z.add_mod_idemp_l, Z.add_assoc by done;
    reflexivity.
Qed.

Lemma move_rook_additive_witness :
  (r ← Board.move_rook Board.new "up" 7; Board.move_rook r.1 "up" 12)
  = Board.move_rook Board.new "up" (7 + 12).
Proof. apply (move_rook_additive Board.new "up" 7 12). discriminate. Defined.

(** X5.  A move up and a move to the right commute: in either order the
    rook ends on the same square of the same board. *)
Theorem move_rook_up_right_commute (b : Board.t) (m n : Z) :
  Board.size b <> 0 ->
  (r ← Board.move_rook b "up" m; r' ← Board.move_rook r.1 "right" n; Ok r'.1)
  = (r ← Board.move_rook b "right" n; r' ← Board.move_rook r.1 "up" m; Ok r'.1).
Proof.
  intros Hsize. rewrite !move_rook_closed by done.
  change (String.eqb "up" "up") with true.
  change (String.eqb "right" "up") with false.
  cbv [mbind result_bind]. cbn [fst].
  rewrite !move_rook_closed by done.
  change (String.eqb "up" "up") with true.
  change (String.eqb "right" "up") with false.
  unfold Piece.set_position. cbn.
  by rewrite !Z.mod_mod, !Z.add_mod_idemp_l by done.
Qed.

Lemma move_rook_up_right_commute_witness :
  (r ← Board.move_rook Board.new "up" 5;
   r' ← Board.move_rook r.1 "right" 9; Ok r'.1)
  = (r ← Board.move_rook Board.new "right" 9;
     r' ← Board.move_rook r.1 "up" 5; Ok r'.1).
Proof. apply (move_rook_up_right_commute Board.new 5 9). discriminate. Defined.

(** X6.  On a well-formed board, a move by a multiple of 8 in either
    direction leaves the board exactly as it was and returns the rook's
    square. *)
Theorem move_rook_multiple_of_8 (b : Board.t) (direction : string) (k : Z) :
  board_ok b ->
  Board.move_rook b direction (k * 8)
  = Ok (b, (Piece.x (Board.rook b), Piece.y (Board.rook b))).
Proof.
  intros (Hsize & _ & Hx & Hy).
  rewrite move_rook_closed by lia. rewrite Hsize.
  rewrite !Z.mod_add by lia.
  rewrite !(Z.mod_small _ 8) by lia.
  destruct b as [size bishop [ty col x y]]. cbn in *. subst size.
  by destruct (String.eqb direction "up").
Qed.

Lemma move_rook_multiple_of_8_witness :
  Board.move_rook Board.new "right" (2 * 8) = Ok (Board.new, (7, 0)).
Proof.
  apply (move_rook_multiple_of_8 Board.new "right" 2).
  split; [reflexivity|]. split; [reflexivity|]. unfold on_board. cbn. lia.
Defined.



(** ** Capture predicates *)

(** X8.  Each capture predicate is symmetric in the two squares: a piece
    on [p]'s square captures [q]'s square exactly when a piece of the same
    kind on [q]'s square captures [p]'s. *)
Theorem can_capture_symmetric (p q : Piece.t) :
  Bishop.can_capture p (Piece.x q) (Piece.y q)
  = Bishop.can_capture q (Piece.x p) (Piece.y p) /\
  Rook.can_capture p (Piece.x q) (Piece.y q)
  = Rook.can_capture q (Piece.x p) (Piece.y p).
Proof.
  split; apply Bool.eq_iff_eq_true.
  - rewrite !bishop_can_capture_iff. lia.
  - rewrite !rook_can_capture_iff. lia.
Qed.

(** X9.  No square is captured both ways: where the bishop's predicate is
    true the rook's is false; and both predicates depend only on the
    offset between the squares, so shifting piece and target together
    does not change them. *)
Theorem can_capture_exclusive (self : Piece.t) (tx ty dx dy : Z) :
  Bishop.can_capture self tx ty && Rook.can_capture self tx ty = false /\
  let shifted :=
    Piece.set_position self (Piece.x self + dx) (Piece.y self + dy) in
  Bishop.can_capture shifted (tx + dx) (ty + dy)
  = Bishop.can_capture self tx ty /\
  Rook.can_capture shifted (tx + dx) (ty + dy) = Rook.can_capture self tx ty.
Proof.
  split; [|split].
  - apply not_true_is_false.
    rewrite andb_true_iff, bishop_can_capture_iff, rook_can_capture_iff. lia.
  - apply Bool.eq_iff_eq_true. rewrite !bishop_can_capture_iff. cbn.
    replace (tx + dx - (Piece.x self + dx)) with (tx - Piece.x self) by lia.
    by replace (ty + dy - (Piece.y self + dy)) with (ty - Piece.y self) by lia.
  - apply Bool.eq_iff_eq_true. rewrite !rook_can_capture_iff. cbn. lia.
Qed.

(** * Further properties of the session store *)

(** ** What a call does to the dictionary, for any dictionary *)

Lemma play_round_shape (games : Games) (game_id : string) (rnd : Draw)
    (game_data : GameData.t) :
  games !! game_id = Some game_data ->
  exists game_data' res,
    GameService.play_round games game_id rnd
    = (<[game_id := game_data']> games, res) /\
    res <> Ok None /\
    forall s, res = Ok (Some s) -> s = GameData.state game_data'.
Proof.
  intros Hgd. unfold GameService.play_round. rewrite Hgd.
  destruct (GameState.game_over (GameData.state game_data)).
  { exists game_data, (Ok (Some (GameData.state game_data))).
    rewrite insert_id by done. split; [done|]. split; [done|].
    by intros s [= <-]. }
  repeat case_match; eexists _, _; (split; [reflexivity|]);
    (split; [done|]); intros s' [= <-]; reflexivity.
Qed.

Lemma play_round_local (games1 games2 : Games) (game_id : string) (rnd : Draw) :
  games1 !! game_id = games2 !! game_id ->
  (GameService.play_round games1 game_id rnd).2
  = (GameService.play_round games2 game_id rnd).2 /\
  (GameService.play_round games1 game_id rnd).1 !! game_id
  = (GameService.play_round games2 game_id rnd).1 !! game_id.
Proof.
  intros H. unfold GameService.play_round.
  destruct (games2 !! game_id) as [gd|] eqn:H2; rewrite H.
  - repeat case_match; cbn; rewrite ?lookup_insert_eq; try done.
    by rewrite H, H2.
  - cbn. by rewrite H, H2.
Qed.

Lemma api_play_round_service (games : Games) (game_id : string) (rnd : Draw) :
  Api.play_round games game_id rnd
  = ((GameService.play_round games game_id rnd).1,
     match (GameService.play_round games game_id rnd).2 with
     | Raise e => Raise e
     | Ok None => Raise Api.not_found
     | Ok (Some game_state) => Ok game_state
     end).
Proof.
  unfold Api.play_round.
  by destruct (GameService.play_round games game_id rnd) as [g [[s|]|e]].
Qed.

Lemma create_game_closed (games : Games) (uuid4 : string) (utcnow : Z) :
  Api.create_game games uuid4 utcnow
  = (<[uuid4 := fresh uuid4 utcnow]> games,
     Ok (GameData.state (fresh uuid4 utcnow))).
Proof. apply create_game_fresh. Qed.

Lemma serve_other (games : Games) (r : request) (key : string) :
  key <> request_id r -> (serve games r).1 !! key = games !! key.
Proof.
  intros Hne. destruct r as [uuid4 utcnow | id | id rnd | id utcnow];
    cbn [serve request_id] in *.
  - rewrite create_game_closed. cbn. by rewrite lookup_insert_ne.
  - by rewrite get_game_closed.
  - rewrite api_play_round_service. cbn [fst].
    destruct (games !! id) as [gd|] eqn:Hgd.
    + destruct (play_round_shape games id rnd gd Hgd) as (gd' & res & -> & _).
      cbn. by rewrite lookup_insert_ne.
    + by rewrite play_round_absent.
  - destruct (games !! id) as [gd|] eqn:Hgd.
    + rewrite reset_game_fresh by eauto. cbn. by rewrite lookup_insert_ne.
    + by rewrite reset_game_absent.
Qed.

Lemma serve_same (games : Games) (r : request) :
  is_Some ((serve games r).1 !! request_id r) <->
  is_Some (games !! request_id r) \/ exists utcnow, r = POST_game (request_id r) utcnow.
Proof.
  destruct r as [uuid4 utcnow | id | id rnd | id utcnow];
    cbn [serve request_id] in *.
  - rewrite create_game_closed. cbn. rewrite lookup_insert_eq.
    split; [eauto | by eauto].
  - rewrite get_game_closed. cbn. split; [auto|]. by intros [? | [? ?]].
  - rewrite api_play_round_service. cbn [fst].
    destruct (games !! id) as [gd|] eqn:Hgd.
    + destruct (play_round_shape games id rnd gd Hgd) as (gd' & res & -> & _).
      cbn. rewrite lookup_insert_eq. split; [eauto | by eauto].
    + rewrite play_round_absent by done. cbn. rewrite Hgd.
      split; [auto|]. by intros [? | [? ?]].
  - destruct (games !! id) as [gd|] eqn:Hgd.
    + rewrite reset_game_fresh by eauto. cbn. rewrite lookup_insert_eq.
      split; [eauto | by eauto].
    + rewrite reset_game_absent by done. cbn. rewrite Hgd.
      split; [auto|]. by intros [? | [? ?]].
Qed.

(** X10.  Serving a request touches at most the session the request
    names: every other entry of the dictionary is what it was; no request
    removes a session; and the only request that adds one is
    [POST /game], under the identifier it allocated. *)
Theorem serve_frame (games : Games) (r : request) (key : string) :
  (key <> request_id r -> (serve games r).1 !! key = games !! key) /\
  (is_Some (games !! key) -> is_Some ((serve games r).1 !! key)) /\
  (is_Some ((serve games r).1 !! key) ->
   is_Some (games !! key) \/ exists utcnow, r = POST_game key utcnow).
Proof.
  split; [apply serve_other|].
  destruct (decide (key = request_id r)) as [-> | Hne].
  - split.
    + intros H. apply serve_same. by left.
    + intros H. by apply serve_same.
  - rewrite serve_other by done. auto.
Qed.

Lemma serve_frame_witness :
  let games := (serve GameService.new (POST_game "g" 0)).1 in
  (serve games (POST_round "h" (mkDraw heads 1 1))).1 !! "g" = games !! "g" /\
  is_Some ((serve games (POST_reset "g" 1)).1 !! "g").
Proof.
  cbv zeta. split.
  - apply (serve_frame (serve GameService.new (POST_game "g" 0)).1
             (POST_round "h" (mkDraw heads 1 1)) "g").
    discriminate.
  - apply (serve_frame (serve GameService.new (POST_game "g" 0)).1
             (POST_reset "g" 1) "g").
    vm_compute. eauto.
Defined.

(** X11.  What a request returned is what [GET /game/{id}] returns right
    after it, for the identifier of the request, and that read leaves the
    dictionary as the request left it. *)
Theorem read_your_writes (games games' : Games) (r : request)
    (game_state : GameState.t) :
  serve games r = (games', Ok game_state) ->
  Api.get_game games' (request_id r) = (games', Ok game_state).
Proof.
  rewrite get_game_closed.
  destruct r as [uuid4 utcnow | id | id rnd | id utcnow];
    cbn [serve request_id].
  - rewrite create_game_closed. intros [= <- <-].
    by rewrite lookup_insert_eq.
  - rewrite get_game_closed. intros [= <- H]. by rewrite H.
  - rewrite api_play_round_service.
    destruct (games !! id) as [gd|] eqn:Hgd.
    + destruct (play_round_shape games id rnd gd Hgd)
        as (gd' & res & -> & _ & Hres).
      cbn. intros [= <- H]. rewrite lookup_insert_eq.
      destruct res as [[s|]|e]; [|done..].
      injection H as <-. by rewrite (Hres s eq_refl).
    + by rewrite play_round_absent.
  - destruct (games !! id) as [gd|] eqn:Hgd.
    + rewrite reset_game_fresh by eauto. intros [= <- <-].
      by rewrite lookup_insert_eq.
    + by rewrite reset_game_absent.
Qed.

Lemma read_your_writes_witness :
  Api.get_game (<["g" := fresh "g" 0]> ∅) "g"
  = (<["g" := fresh "g" 0]> ∅, Ok (GameData.state (fresh "g" 0))).
Proof.
  apply (read_your_writes ∅ _ (POST_game "g" 0)). reflexivity.
Defined.

(** ** How the routes compose *)

(** X12.  [POST /game] with an identifier that is already stored does what
    [POST /game/{id}/reset] does: the old session is replaced by a new
    one, and the two calls return the same state. *)
Theorem create_on_stored_id_is_reset (games : Games) (game_id : string)
    (utcnow : Z) :
  is_Some (games !! game_id) ->
  Api.create_game games game_id utcnow = Api.reset_game games game_id utcnow.
Proof.
  intros Hstored. by rewrite create_game_closed, reset_game_fresh.
Qed.

Lemma create_on_stored_id_is_reset_witness :
  let games := (serve (serve GameService.new (POST_game "g" 0)).1
                      (POST_round "g" (mkDraw tails 1 1))).1 in
  Api.create_game games "g" 5 = Api.reset_game games "g" 5.
Proof.
  cbv zeta. apply create_on_stored_id_is_reset. vm_compute. eauto.
Defined.

(** X13.  A reset forgets what came before it: resetting after a round, or
    after another reset, returns the same state and leaves the same
    dictionary as resetting at once.  With a stored identifier each of the
    three returns the new state and leaves it, with a new board, in the
    entry; with an identifier that is not stored each of the three raises
    the 404 error and leaves the dictionary as it was at the start. *)
Theorem reset_forgets (games : Games) (game_id : string) (rnd : Draw)
    (utcnow utcnow' : Z) :
  (Api.reset_game (Api.play_round games game_id rnd).1 game_id utcnow
   = Api.reset_game games game_id utcnow /\
   Api.reset_game (Api.reset_game games game_id utcnow').1 game_id utcnow
   = Api.reset_game games game_id utcnow) /\
  (games !! game_id = None ->
   Api.reset_game games game_id utcnow = (games, Raise Api.not_found) /\
   Api.reset_game (Api.play_round games game_id rnd).1 game_id utcnow
   = (games, Raise Api.not_found) /\
   Api.reset_game (Api.reset_game games game_id utcnow').1 game_id utcnow
   = (games, Raise Api.not_found)) /\
  (is_Some (games !! game_id) ->
   exists game_state,
     game_state
     = GameState.new game_id utcnow
         {| Position.file := "c"; Position.rank := 3;
            Position.x := 2; Position.y := 2 |}
         {| Position.file := "h"; Position.rank := 1;
            Position.x := 7; Position.y := 0 |} /\
     Api.reset_game (Api.play_round games game_id rnd).1 game_id utcnow
     = (<[game_id := {| GameData.state := game_state;
                        GameData.board := Board.new |}]> games,
        Ok game_state)).
Proof.
  assert (Heq :
    Api.reset_game (Api.play_round games game_id rnd).1 game_id utcnow
    = Api.reset_game games game_id utcnow /\
    Api.reset_game (Api.reset_game games game_id utcnow').1 game_id utcnow
    = Api.reset_game games game_id utcnow).
  { destruct (games !! game_id) as [gd|] eqn:Hgd.
    - split.
      + rewrite api_play_round_service. cbn [fst].
        destruct (play_round_shape games game_id rnd gd Hgd)
          as (gd' & res & -> & _).
        cbn [fst].
        rewrite !reset_game_fresh by (rewrite ?lookup_insert_eq; eauto).
        by rewrite insert_insert_eq.
      + rewrite (reset_game_fresh games game_id utcnow') by eauto. cbn [fst].
        rewrite !reset_game_fresh by (rewrite ?lookup_insert_eq; eauto).
        by rewrite insert_insert_eq.
    - rewrite api_play_round_absent by done.
      by rewrite (reset_game_absent games game_id utcnow') by done. }
  destruct Heq as [Hround Hreset]. split; [done|]. split.
  - intros Hnone. rewrite Hround, Hreset.
    by rewrite reset_game_absent by done.
  - intros Hsome. eexists. split; [reflexivity|].
    rewrite Hround. by rewrite reset_game_fresh by done.
Qed.

Lemma reset_forgets_witness :
  let games := (serve GameService.new (POST_game "g" 0)).1 in
  Api.reset_game (Api.play_round games "zz" (mkDraw heads 1 1)).1 "zz" 3
  = (games, Raise Api.not_found) /\
  exists game_state,
    Api.reset_game (Api.play_round games "g" (mkDraw heads 3 4)).1 "g" 3
    = (<["g" := {| GameData.state := game_state;
                   GameData.board := Board.new |}]> games,
       Ok game_state) /\
    GameState.rounds game_state = [] /\
    GameState.game_over game_state = false.
Proof.
  cbv zeta. split.
  - destruct (reset_forgets (serve GameService.new (POST_game "g" 0)).1 "zz"
                (mkDraw heads 1 1) 3 0) as (_ & Habsent & _).
    apply Habsent. vm_compute. reflexivity.
  - destruct (reset_forgets (serve GameService.new (POST_game "g" 0)).1 "g"
                (mkDraw heads 3 4) 3 0) as (_ & _ & Hstored).
    destruct Hstored as (game_state & -> & Hcall).
    + vm_compute. eauto.
    + eexists. split; [exact Hcall|]. split; reflexivity.
Defined.

Lemma api_play_round_local (games1 games2 : Games) (game_id : string)
    (rnd : Draw) :
  games1 !! game_id = games2 !! game_id ->
  (Api.play_round games1 game_id rnd).2 = (Api.play_round games2 game_id rnd).2 /\
  (Api.play_round games1 game_id rnd).1 !! game_id
  = (Api.play_round games2 game_id rnd).1 !! game_id.
Proof.
  intros H. rewrite !api_play_round_service. cbn [fst snd].
  destruct (play_round_local games1 games2 game_id rnd H) as [-> ->]. done.
Qed.

(** X14.  Rounds played on two different sessions do not interfere: the
    second call returns what it would have returned without the first,
    and the two calls leave the same dictionary in either order. *)
Theorem play_round_sessions_commute (games : Games) (a b : string)
    (rnd_a rnd_b : Draw) :
  a <> b ->
  (Api.play_round (Api.play_round games a rnd_a).1 b rnd_b).2
  = (Api.play_round games b rnd_b).2 /\
  (Api.play_round (Api.play_round games a rnd_a).1 b rnd_b).1
  = (Api.play_round (Api.play_round games b rnd_b).1 a rnd_a).1.
Proof.
  intros Hab.
  assert (Hother : forall g x y rnd, x <> y ->
            (Api.play_round g x rnd).1 !! y = g !! y).
  { intros g x y rnd Hxy.
    apply (serve_other g (POST_round x rnd) y). cbn. congruence. }
  split.
  - apply api_play_round_local. by apply Hother.
  - apply map_eq. intros k.
    destruct (decide (k = a)) as [-> | Hka];
      [|destruct (decide (k = b)) as [-> | Hkb]].
    + rewrite Hother by congruence. symmetry.
      apply api_play_round_local. by apply Hother.
    + rewrite (Hother _ a b) by done.
      apply api_play_round_local. by apply Hother.
    + by rewrite !Hother by congruence.
Qed.

Lemma play_round_sessions_commute_witness :
  let games := (serve (serve GameService.new (POST_game "a" 0)).1
                      (POST_game "b" 1)).1 in
  (Api.play_round (Api.play_round games "a" (mkDraw heads 1 2)).1
     "b" (mkDraw tails 6 6)).2
  = (Api.play_round games "b" (mkDraw tails 6 6)).2 /\
  (Api.play_round (Api.play_round games "a" (mkDraw heads 1 2)).1
     "b" (mkDraw tails 6 6)).1
  = (Api.play_round (Api.play_round games "b" (mkDraw tails 6 6)).1
       "a" (mkDraw heads 1 2)).1.
Proof.
  cbv zeta. apply play_round_sessions_commute. discriminate.
Defined.

Lemma advance_all_over (draws : list Draw) (game_data : GameData.t) :
  GameState.game_over (GameData.state game_data) = true ->
  advance_all game_data draws = game_data.
Proof.
  intros Hover. induction draws as [|rnd draws IH]; cbn; [done|].
  by rewrite Hover.
Qed.

Lemma advance_all_app (draws1 draws2 : list Draw) (game_data : GameData.t) :
  advance_all game_data (draws1 ++ draws2)
  = advance_all (advance_all game_data draws1) draws2.
Proof.
  revert game_data. induction draws1 as [|rnd draws1 IH]; intros gd; cbn;
    [done | apply IH].
Qed.

(** X15.  Only the first 15 draws matter to a created session: playing any
    list of draws leaves the dictionary that playing its first 15 draws
    leaves. *)
Theorem only_first_15_draws_count (games : Games) (uuid4 : string)
    (utcnow : Z) (draws : list Draw) :
  play_rounds (Api.create_game games uuid4 utcnow).1 uuid4 draws
  = play_rounds (Api.create_game games uuid4 utcnow).1 uuid4 (take 15 draws).
Proof.
  rewrite create_game_closed. cbn [fst].
  rewrite !(play_rounds_advance_all _ _ _ (fresh uuid4 utcnow))
    by (by rewrite ?lookup_insert_eq || apply fresh_ok).
  f_equal.
  rewrite <- (take_drop 15 draws) at 1. rewrite advance_all_app.
  destruct (decide (length draws < 15)%nat) as [Hshort | Hlong].
  - by rewrite drop_ge by lia.
  - apply advance_all_over.
    pose proof (advance_all_ok (take 15 draws) _ (fresh_ok uuid4 utcnow))
      as (_ & _ & _ & _ & Hlive & _).
    destruct (advance_all_progress (take 15 draws) (fresh uuid4 utcnow))
      as [H | H]; [done|].
    destruct (GameState.game_over
                (GameData.state (advance_all (fresh uuid4 utcnow)
                                   (take 15 draws)))); [done|].
    destruct (Hlive eq_refl) as (_ & Hlt & _).
    rewrite length_take in H.
    change (GameState.current_round (GameData.state (fresh uuid4 utcnow)))
      with 0 in H.
    lia.
Qed.

(** X16.  Once a stored session is over, no number of further rounds
    changes the dictionary. *)
Theorem play_rounds_after_game_over (games : Games) (game_id : string)
    (draws : list Draw) (game_data : GameData.t) :
  games !! game_id = Some game_data ->
  GameState.game_over (GameData.state game_data) = true ->
  play_rounds games game_id draws = games.
Proof.
  intros Hgd Hover. induction draws as [|rnd draws IH]; cbn; [done|].
  by rewrite (api_play_round_over _ _ _ _ Hgd Hover).
Qed.

Lemma play_rounds_after_game_over_witness :
  let games : Games :=
    <["g" := advance (fresh "g" 0) (mkDraw heads 3 4)]> ∅ in
  play_rounds games "g" [mkDraw tails 1 1; mkDraw heads 2 2; mkDraw tails 6 6]
  = games.
Proof.
  cbv zeta.
  apply (play_rounds_after_game_over _ "g" _
           (advance (fresh "g" 0) (mkDraw heads 3 4))).
  - vm_compute. reflexivity.
  - reflexivity.
Defined.

(** ** State, board and history of every stored session *)

Lemma fresh_full (game_id : string) (utcnow : Z) :
  full_ok game_id (fresh game_id utcnow).
Proof.
  split; [split; [done | apply fresh_ok]|].
  split; [|split].
  - split; [done|]. split; [done|]. by split.
  - split; [|done]. by intros i r.
  - constructor.
Qed.

Lemma round_record_toss_ok (game_data : GameData.t) (rnd : Draw) :
  toss_ok (round_record game_data rnd).
Proof.
  unfold toss_ok, round_record, landing. cbn.
  destruct (choice rnd); cbn; [left | right]; done.
Qed.

Lemma advance_full (key : string) (game_data : GameData.t) (rnd : Draw) :
  full_ok key game_data ->
  GameState.game_over (GameData.state game_data) = false ->
  full_ok key (advance game_data rnd).
Proof.
  intros ([Hid Hok] & (Hbp & Hrp & Hcap) & [Hchain Hlast] & Htoss) Hover.
  pose proof Hok as (_ & _ & _ & _ & Hlive & _).
  destruct (Hlive Hover) as (Hwin & _ & _).
  split; [split; [done | by apply advance_ok]|].
  split; [|split].
  - split; [done|]. split; [done|]. cbn.
    destruct (Board.check_capture (moved (GameData.board game_data) rnd));
      [done|].
    rewrite Hwin. by destruct (_ >=? 15).
  - unfold chain_ok. cbn.
    set (rs := GameState.rounds (GameData.state game_data)) in *.
    set (r := round_record game_data rnd).
    split.
    + intros i r' Hi. apply lookup_app_Some in Hi as [Hi | [Hlen Hi]].
      * rewrite (Hchain i r' Hi). destruct i as [|j]; [done|]. cbn.
        apply lookup_lt_Some in Hi. by rewrite lookup_app_l by lia.
      * apply list_lookup_singleton_Some in Hi as [Hi <-].
        replace i with (length rs) by lia.
        transitivity (GameState.rook_position (GameData.state game_data));
          [done|].
        rewrite Hlast. destruct (length rs) as [|j] eqn:Hj; [done|]. cbn.
        by rewrite lookup_app_l by lia.
    + rewrite length_app, Nat.add_1_r. cbn.
      by rewrite lookup_app_r, Nat.sub_diag by lia.
  - cbn. apply Forall_app. split; [done|].
    apply Forall_singleton, round_record_toss_ok.
Qed.

Lemma serve_full (games : Games) (r : request) :
  map_Forall full_ok games -> map_Forall full_ok (serve games r).1.
Proof.
  intros Hall. destruct r as [uuid4 utcnow | game_id | game_id rnd | game_id utcnow];
    cbn [serve].
  - rewrite create_game_closed. cbn.
    apply map_Forall_insert_2; [apply fresh_full | done].
  - by rewrite get_game_closed.
  - destruct (games !! game_id) as [gd|] eqn:Hgd.
    + pose proof (Hall _ _ Hgd) as Hfull.
      destruct (GameState.game_over (GameData.state gd)) eqn:Hover.
      * by rewrite (api_play_round_over _ _ _ _ Hgd Hover).
      * rewrite (api_play_round_live _ _ _ _ Hgd Hover) by apply Hfull. cbn.
        apply map_Forall_insert_2; [by apply advance_full | done].
    + by rewrite api_play_round_absent.
  - destruct (games !! game_id) as [gd|] eqn:Hgd.
    + rewrite reset_game_fresh by eauto. cbn.
      apply map_Forall_insert_2; [apply fresh_full | done].
    + by rewrite reset_game_absent.
Qed.

Lemma reachable_full (games : Games) :
  reachable games -> map_Forall full_ok games.
Proof.
  induction 1 as [|games r _ IH].
  - apply map_Forall_empty.
  - by apply serve_full.
Qed.

(** X17.  For every session the running service stores, the snapshot
    [get_board_state] takes of its board agrees with its state: the same
    bishop and rook positions, and [captured] true exactly when the state
    names the bishop as winner. *)
Theorem board_state_agrees_with_game_state (games : Games) (key : string)
    (game_data : GameData.t) :
  reachable games ->
  games !! key = Some game_data ->
  let s := GameData.state game_data in
  Board.get_board_state (GameData.board game_data)
  = Ok {| Board.bishop_position := GameState.bishop_position s;
          Board.rook_position := GameState.rook_position s;
          Board.captured :=
            bool_decide (GameState.winner s = Some "Bishop (White)") |}.
Proof.
  intros Hreach Hgd.
  destruct (reachable_full _ Hreach _ _ Hgd)
    as ([_ Hok] & (Hbp & Hrp & Hcap) & _).
  destruct Hok as ((Hsize & Hbishop & Hx & Hy) & _).
  cbv zeta. unfold Board.get_board_state.
  rewrite Hbishop. rewrite (get_position_on_board (Bishop.new (2, 2))) by (cbn; lia).
  rewrite get_position_on_board by done. cbn.
  rewrite Hbp, Hrp. do 2 f_equal.
  destruct (Board.check_capture (GameData.board game_data)).
  - symmetry. apply bool_decide_eq_true. by apply Hcap.
  - symmetry. apply bool_decide_eq_false. intros H. by apply Hcap in H.
Qed.

Lemma board_state_agrees_with_game_state_witness :
  Board.get_board_state (GameData.board (fresh "g" 0))
  = Ok {| Board.bishop_position := position_of 2 2;
          Board.rook_position := position_of 7 0;
          Board.captured := false |}.
Proof.
  apply (board_state_agrees_with_game_state
           (serve GameService.new (POST_game "g" 0)).1 "g" (fresh "g" 0)).
  - apply reachable_serve, reachable_new.
  - vm_compute. reflexivity.
Defined.

Lemma round_ok_positions (i : nat) (r : GameRound.t) :
  round_ok i r ->
  position_ok (GameRound.rook_position_before r) /\
  position_ok (GameRound.rook_position_after r).
Proof.
  intros (_ & _ & (x & y & [Hx Hy] & -> & Hafter) & _). cbv zeta in Hafter.
  split; [by apply position_of_ok|].
  set (t := DiceRoll.total (GameRound.dice_roll r)) in *.
  pose proof (Z.mod_pos_bound (x + t) 8 ltac:(lia)).
  pose proof (Z.mod_pos_bound (y + t) 8 ltac:(lia)).
  destruct Hafter as [[_ ->] | [_ ->]]; apply position_of_ok; split; lia.
Qed.

(** X18.  In the running service every stored state carries the identifier
    it is stored under, shows the bishop at c3, and shows the rook on a
    square of the board in both notations: [x], [y] in 0..7, the file the
    letter of [x] among "a".."h", the rank [y + 1]; so do the positions
    before and after of every recorded round, whatever integers the dice
    gave. *)
Theorem stored_positions_well_formed (games : Games) (key : string)
    (game_data : GameData.t) :
  reachable games ->
  games !! key = Some game_data ->
  let s := GameData.state game_data in
  GameState.game_id s = key /\
  GameState.bishop_position s
  = {| Position.file := "c"; Position.rank := 3;
       Position.x := 2; Position.y := 2 |} /\
  position_ok (GameState.rook_position s) /\
  Forall (fun r => position_ok (GameRound.rook_position_before r) /\
                   position_ok (GameRound.rook_position_after r))
         (GameState.rounds s).
Proof.
  intros Hreach Hgd.
  destruct (reachable_full _ Hreach _ _ Hgd)
    as ([Hid Hok] & (Hbp & Hrp & _) & _).
  destruct Hok as ((_ & _ & Hon) & _ & Hrounds & _).
  cbv zeta. split; [done|]. split; [by rewrite Hbp|].
  split; [rewrite Hrp; by apply position_of_ok|].
  apply Forall_lookup. intros i r Hi.
  by apply (round_ok_positions i), Hrounds.
Qed.

Lemma stored_positions_well_formed_witness :
  position_ok (GameState.rook_position
                 (GameData.state (advance (fresh "g" 0) (mkDraw tails (-40) 3)))).
Proof.
  apply (stored_positions_well_formed
           (serve (serve GameService.new (POST_game "g" 0)).1
                  (POST_round "g" (mkDraw tails (-40) 3))).1
           "g" (advance (fresh "g" 0) (mkDraw tails (-40) 3))).
  - apply reachable_serve, reachable_serve, reachable_new.
  - vm_compute. reflexivity.
Defined.

(** X19.  The recorded rounds of a stored session form one path of the
    rook: the first round starts at h1, each later round starts where the
    round before it ended, and the state shows the rook where the last
    round ended, or at h1 when no round was played. *)
Theorem rounds_form_a_path (games : Games) (key : string)
    (game_data : GameData.t) :
  reachable games ->
  games !! key = Some game_data ->
  let s := GameData.state game_data in
  let h1 := {| Position.file := "h"; Position.rank := 1;
               Position.x := 7; Position.y := 0 |} in
  (forall r, GameState.rounds s !! 0%nat = Some r ->
             GameRound.rook_position_before r = h1) /\
  (forall (i : nat) r r',
     GameState.rounds s !! i = Some r ->
     GameState.rounds s !! S i = Some r' ->
     GameRound.rook_position_before r' = GameRound.rook_position_after r) /\
  GameState.rook_position s
  = from_option GameRound.rook_position_after h1 (last (GameState.rounds s)).
Proof.
  intros Hreach Hgd.
  destruct (reachable_full _ Hreach _ _ Hgd) as (_ & _ & [Hchain Hlast] & _).
  cbv zeta. split; [|split].
  - intros r Hr. by rewrite (Hchain 0%nat r Hr).
  - intros i r r' Hr Hr'. rewrite (Hchain (S i) r' Hr'). cbn. by rewrite Hr.
  - rewrite Hlast, last_lookup.
    by destruct (GameState.rounds (GameData.state game_data)).
Qed.

Lemma rounds_form_a_path_witness :
  let game_data :=
    advance (advance (fresh "g" 0) (mkDraw tails 1 1)) (mkDraw heads 2 3) in
  GameState.rook_position (GameData.state game_data)
  = from_option GameRound.rook_position_after
      {| Position.file := "h"; Position.rank := 1;
         Position.x := 7; Position.y := 0 |}
      (last (GameState.rounds (GameData.state game_data))).
Proof.
  cbv zeta.
  apply (rounds_form_a_path
           (serve (serve (serve GameService.new (POST_game "g" 0)).1
                         (POST_round "g" (mkDraw tails 1 1))).1
                  (POST_round "g" (mkDraw heads 2 3))).1 "g").
  - do 3 apply reachable_serve. apply reachable_new.
  - vm_compute. reflexivity.
Defined.

(** X20.  In every recorded round of a stored session the toss decides the
    axis: heads is recorded with direction "up" and moves the rook along
    its file, [y] becoming [(y + total) mod 8] and [x] staying; tails is
    recorded with direction "right" and moves it along its rank, [x]
    becoming [(x + total) mod 8] and [y] staying. *)
Theorem toss_decides_the_axis (games : Games) (key : string)
    (game_data : GameData.t) :
  reachable games ->
  games !! key = Some game_data ->
  Forall (fun r =>
            let before := GameRound.rook_position_before r in
            let after := GameRound.rook_position_after r in
            let total := DiceRoll.total (GameRound.dice_roll r) in
            (CoinToss.result (GameRound.coin_toss r) = "heads" /\
             CoinToss.direction (GameRound.coin_toss r) = "up" /\
             Position.x after = Position.x before /\
             Position.y after = (Position.y before + total) mod 8) \/
            (CoinToss.result (GameRound.coin_toss r) = "tails" /\
             CoinToss.direction (GameRound.coin_toss r) = "right" /\
             Position.x after = (Position.x before + total) mod 8 /\
             Position.y after = Position.y before))
         (GameState.rounds (GameData.state game_data)).
Proof.
  intros Hreach Hgd.
  by destruct (reachable_full _ Hreach _ _ Hgd) as (_ & _ & _ & Htoss).
Qed.

Lemma toss_decides_the_axis_witness :
  Forall toss_ok
    (GameState.rounds
       (GameData.state (advance (fresh "g" 0) (mkDraw heads 6 6)))).
Proof.
  apply (toss_decides_the_axis
           (serve (serve GameService.new (POST_game "g" 0)).1
                  (POST_round "g" (mkDraw heads 6 6))).1 "g").
  - do 2 apply reachable_serve. apply reachable_new.
  - vm_compute. reflexivity.
Defined.

(** X21.  In the running service the bishop is named winner of a session
    exactly when the state shows the rook on one of the diagonals through
    c3 and off c3 itself; and a round is recorded as a capture exactly when
    the rook ended it on such a square.  A rook that lands on c3 is not
    captured. *)
Theorem bishop_wins_on_its_diagonals (games : Games) (key : string)
    (game_data : GameData.t) :
  reachable games ->
  games !! key = Some game_data ->
  let s := GameData.state game_data in
  let on_diagonal (p : Position.t) :=
    Z.abs (Position.x p - 2) = Z.abs (Position.y p - 2) /\
    Position.x p <> 2 in
  (GameState.winner s = Some "Bishop (White)" <->
   on_diagonal (GameState.rook_position s)) /\
  Forall (fun r => GameRound.captured r = true <->
                   on_diagonal (GameRound.rook_position_after r))
         (GameState.rounds s).
Proof.
  intros Hreach Hgd.
  destruct (reachable_full _ Hreach _ _ Hgd)
    as ([_ Hok] & (_ & Hrp & Hcap) & _).
  destruct Hok as ((_ & Hbishop & _) & _ & Hrounds & _).
  cbv zeta. split.
  - rewrite <- Hcap, Hrp. unfold Board.check_capture. rewrite Hbishop.
    change (can_capture (Bishop.new (2, 2))) with
      (Bishop.can_capture (Bishop.new (2, 2))).
    rewrite bishop_can_capture_iff. cbn. lia.
  - apply Forall_lookup. intros i r Hi.
    destruct (Hrounds i r Hi) as (_ & _ & _ & ->).
    rewrite bishop_can_capture_iff. cbn. lia.
Qed.

Lemma bishop_wins_on_its_diagonals_witness :
  let s := GameData.state (advance (fresh "g" 0) (mkDraw heads 3 4)) in
  GameState.winner s = Some "Bishop (White)" <->
  Z.abs (Position.x (GameState.rook_position s) - 2)
  = Z.abs (Position.y (GameState.rook_position s) - 2) /\
  Position.x (GameState.rook_position s) <> 2.
Proof.
  cbv zeta.
  apply (bishop_wins_on_its_diagonals
           (serve (serve GameService.new (POST_game "g" 0)).1
                  (POST_round "g" (mkDraw heads 3 4))).1 "g").
  - do 2 apply reachable_serve. apply reachable_new.
  - vm_compute. reflexivity.
Defined.

Lemma advance_all_history (draws : list Draw) (game_data : GameData.t) :
  let s := GameData.state game_data in
  let s' := GameData.state (advance_all game_data draws) in
  GameState.rounds s `prefix_of` GameState.rounds s' /\
  (length (GameState.rounds s') <= length (GameState.rounds s) + length draws)%nat /\
  GameState.game_id s' = GameState.game_id s /\
  GameState.created_at s' = GameState.created_at s /\
  GameState.bishop_position s' = GameState.bishop_position s /\
  (GameState.game_over s = true -> GameState.game_over s' = true).
Proof.
  revert game_data. induction draws as [|rnd draws IH]; intros gd; cbn.
  - repeat split; done || lia.
  - destruct (GameState.game_over (GameData.state gd)) eqn:Hover.
    + destruct (IH gd) as (Hpre & Hlen & Hid & Hat & Hbp & Hgo).
      repeat split; try done; try lia; auto.
    + destruct (IH (advance gd rnd)) as (Hpre & Hlen & Hid & Hat & Hbp & Hgo).
      cbn in *. rewrite length_app in Hlen. cbn in Hlen.
      split; [|repeat split; try done; try lia].
      etrans; [|exact Hpre]. by apply prefix_app_r.
Qed.

(** X22.  Rounds never rewrite a stored session's past: after any list of
    draws is played on it, the rounds it had are the first rounds of its
    history, at most one round per draw was added, identifier, creation
    time and bishop position are what they were, and a session that was
    over is still over. *)
Theorem history_is_append_only (games : Games) (key : string)
    (game_data : GameData.t) (draws : list Draw) :
  reachable games ->
  games !! key = Some game_data ->
  exists game_data',
    play_rounds games key draws !! key = Some game_data' /\
    let s := GameData.state game_data in
    let s' := GameData.state game_data' in
    GameState.rounds s `prefix_of` GameState.rounds s' /\
    (length (GameState.rounds s')
     <= length (GameState.rounds s) + length draws)%nat /\
    GameState.game_id s' = GameState.game_id s /\
    GameState.created_at s' = GameState.created_at s /\
    GameState.bishop_position s' = GameState.bishop_position s /\
    (GameState.game_over s = true -> GameState.game_over s' = true).
Proof.
  intros Hreach Hgd.
  destruct (reachable_ok _ Hreach _ _ Hgd) as [_ (Hb & _)].
  exists (advance_all game_data draws). split.
  - rewrite (play_rounds_advance_all _ _ _ game_data) by done.
    by rewrite lookup_insert_eq.
  - apply advance_all_history.
Qed.

Lemma history_is_append_only_witness :
  exists game_data',
    play_rounds (serve GameService.new (POST_game "g" 0)).1 "g"
      [mkDraw tails 1 1; mkDraw heads 2 3] !! "g" = Some game_data' /\
    GameState.created_at (GameData.state game_data') = 0.
Proof.
  destruct (history_is_append_only
              (serve GameService.new (POST_game "g" 0)).1 "g" (fresh "g" 0)
              [mkDraw tails 1 1; mkDraw heads 2 3])
    as (gd' & Hstored & _ & _ & _ & Hat & _).
  - apply reachable_serve, reachable_new.
  - vm_compute. reflexivity.
  - by exists gd'.
Defined.

(** X23.  In the running service, also after resets and with other
    sessions played in between, every stored session has its counter
    equal to the number of recorded rounds, at most 15; the rounds are
    numbered 1, 2, ...; each total is the sum of its dice; the session is
    over exactly when it has a winner; and only its last round can be a
    capture. *)
Theorem stored_sessions_are_consistent (games : Games) (key : string)
    (game_data : GameData.t) :
  reachable games ->
  games !! key = Some game_data ->
  let s := GameData.state game_data in
  GameState.current_round s = Z.of_nat (length (GameState.rounds s)) /\
  (length (GameState.rounds s) <= 15)%nat /\
  (forall (i : nat) r,
     GameState.rounds s !! i = Some r ->
     GameRound.round_number r = Z.of_nat (S i) /\
     DiceRoll.total (GameRound.dice_roll r)
     = DiceRoll.die1 (GameRound.dice_roll r)
       + DiceRoll.die2 (GameRound.dice_roll r) /\
     (GameRound.captured r = true ->
      S i = length (GameState.rounds s) /\ GameState.game_over s = true)) /\
  (GameState.game_over s = true <-> GameState.winner s <> None) /\
  (GameState.game_over s = false -> (length (GameState.rounds s) < 15)%nat).
Proof.
  intros Hreach Hgd.
  destruct (reachable_ok _ Hreach _ _ Hgd)
    as [_ (_ & Hcount & Hrounds & Hle & Hlive & Hover)].
  cbv zeta. split; [done|]. split; [lia|]. split; [|split].
  - intros i r Hi. destruct (Hrounds i r Hi) as (Hn & Htotal & _).
    split; [lia|]. split; [done|]. intros Hcap.
    destruct (GameState.game_over (GameData.state game_data)) eqn:Hgo.
    + destruct (Hover eq_refl) as (earlier & r' & Heq & Hnc & _).
      rewrite Heq in Hi |- *. rewrite length_app, Nat.add_1_r.
      apply lookup_app_Some in Hi as [Hi | [Hlen Hi]].
      * pose proof (proj1 (Forall_lookup _ _) Hnc i r Hi) as Hr.
        unfold not_captured in Hr. congruence.
      * apply list_lookup_singleton_Some in Hi as [Hi _].
        split; [lia | done].
    + destruct (Hlive eq_refl) as (_ & _ & Hnc).
      pose proof (proj1 (Forall_lookup _ _) Hnc i r Hi) as Hr.
      unfold not_captured in Hr. congruence.
  - destruct (GameState.game_over (GameData.state game_data)) eqn:Hgo.
    + destruct (Hover eq_refl)
        as (_ & _ & _ & _ & [[_ ->] | (_ & -> & _)]); done.
    + destruct (Hlive eq_refl) as (-> & _). split; [done|]. by intros [].
  - intros Hgo. destruct (Hlive Hgo) as (_ & Hlt & _). lia.
Qed.

Lemma stored_sessions_are_consistent_witness :
  let s :=
    GameData.state
      (advance (advance (fresh "g" 7) (mkDraw tails 1 1)) (mkDraw heads 1 2)) in
  GameState.current_round s = Z.of_nat (length (GameState.rounds s)) /\
  (length (GameState.rounds s) <= 15)%nat /\
  (forall (i : nat) r,
     GameState.rounds s !! i = Some r ->
     GameRound.round_number r = Z.of_nat (S i) /\
     DiceRoll.total (GameRound.dice_roll r)
     = DiceRoll.die1 (GameRound.dice_roll r)
       + DiceRoll.die2 (GameRound.dice_roll r) /\
     (GameRound.captured r = true ->
      S i = length (GameState.rounds s) /\ GameState.game_over s = true)) /\
  (GameState.game_over s = true <-> GameState.winner s <> None) /\
  (GameState.game_over s = false -> (length (GameState.rounds s) < 15)%nat).
Proof.
  cbv zeta.
  apply (stored_sessions_are_consistent
           (serve (serve (serve (serve (serve GameService.new
              (POST_game "g" 0)).1
              (POST_round "g" (mkDraw heads 3 4))).1
              (POST_reset "g" 7)).1
              (POST_round "g" (mkDraw tails 1 1))).1
              (POST_round "g" (mkDraw heads 1 2))).1 "g").
  - do 5 apply reachable_serve. apply reachable_new.
  - vm_compute. reflexivity.
Defined.

(** The session of the witness: played to a capture, reset, then played
    for two rounds, the second a capture at b4. *)
Example consistent_session_has_rounds :
  let s :=
    GameData.state
      (advance (advance (fresh "g" 7) (mkDraw tails 1 1)) (mkDraw heads 1 2)) in
  length (GameState.rounds s) = 2%nat /\
  GameRound.captured <$> GameState.rounds s = [false; true] /\
  GameState.game_over s = true /\
  GameState.winner s = Some "Bishop (White)" /\
  Position.file (GameState.rook_position s) = "b" /\
  Position.rank (GameState.rook_position s) = 4.
Proof. vm_compute. repeat split. Qed.
